(** * The simulated program memory of the C interpreter

    A shallow embedding of [interpreter/interpreter/memory.py]: the classes
    [Scope], [Frame], [Stack] and [Memory], with their methods as functions
    over explicit state, and the properties of name resolution, allocation
    and raw storage that the specification states about them. *)

From Stdlib Require Import ZArith String Ascii List Lia DecimalString Sorted.
From stdpp Require Import base gmap strings list fin_maps.

Local Open Scope Z_scope.
Local Open Scope string_scope.

(** ** Python strings

    The slices and conversions [Frame.new_scope] and [Memory.declare]
    apply to [str] values. *)

(** [s[:-2]] *)
Definition str_drop_last2 (s : string) : string :=
  substring 0 (String.length s - 2) s.

(** [s[-2:]]: the whole string when it has fewer than two characters. *)
Definition str_last2 (s : string) : string :=
  substring (String.length s - 2) 2 s.

(** [s[-1]]; [None] stands for the [IndexError] of the empty string. *)
Definition str_last (s : string) : option ascii :=
  String.get (String.length s - 1) s.

Definition is_digit (c : ascii) : bool :=
  (48 <=? nat_of_ascii c)%nat && (nat_of_ascii c <=? 57)%nat.

Definition digit_val (c : ascii) : Z := Z.of_nat (nat_of_ascii c) - 48.

Fixpoint digits_val (acc : Z) (s : string) : option Z :=
  match s with
  | EmptyString => Some acc
  | String c s' =>
      if is_digit c then digits_val (10 * acc + digit_val c) s' else None
  end.

(** [int(s)] on a string of decimal digits; [None] stands for [ValueError].
    The other literals Python's [int] reads (a sign, surrounding blanks)
    never end a scope name: see [fmt_02d_ends_in_digits] below. *)
Definition py_int (s : string) : option Z :=
  match s with
  | EmptyString => None
  | _ => digits_val 0 s
  end.

(** ['{:02d}'.format(n)] *)
Definition fmt_02d (n : Z) : string :=
  let s := NilZero.string_of_int (Z.to_int n) in
  if (String.length s <? 2)%nat then "0" ++ s else s.

(** ** Values

    [Number] and [Pointer] come from the module [types], which is not part
    of this file's source; the raw memory only stores them. *)

(** Modelled from the spec: the classes [Number] and [Pointer] of
    [interpreter/types.py] are missing; they are "opaque default-value
    constructors for numeric-kind and pointer-kind values".  A value keeps
    the type name it was built with and its content; [PyNone] is the null
    placeholder [None]. *)
Inductive Value : Type :=
| Number (ttype : string) (value : Z)
| Pointer (ttype : string) (value : Z)
| PyNone.

(** ** Exceptions *)

Inductive PyError : Type :=
| KeyError (key : string)
| RuntimeError (msg : string)
| AttributeError
| IndexError
| TypeError
| ValueError.

Inductive Outcome (A : Type) : Type :=
| Return (a : A)
| Raise (e : PyError).
Arguments Return {A} a.
Arguments Raise {A} e.

(** ** class Scope *)

#[local] Set Warnings "-register-all".

Inductive Scope : Type :=
  mkScope {
    scope_name : string;
    (* None for the global scope and for the scope at the top of a frame *)
    parent_scope : option Scope;
    _addresses : gmap string Z
  }.

(** [Scope.__setitem__] *)
Definition Scope_setitem (self : Scope) (key : string) (value : Z) : Scope :=
  mkScope (scope_name self) (parent_scope self) (<[key:=value]> (_addresses self)).

(** [Scope.__getitem__]: the dict raises [KeyError] on a missing key. *)
Definition Scope_getitem (self : Scope) (item : string) : Outcome Z :=
  match _addresses self !! item with
  | Some a => Return a
  | None => Raise (KeyError item)
  end.

(** [Scope.__contains__] *)
Definition Scope_contains (self : Scope) (key : string) : bool :=
  bool_decide (is_Some (_addresses self !! key)).

(** ** class Frame *)

Record Frame : Type :=
  mkFrame {
    frame_name : string;
    (* None once del_scope has left the scope the frame started with *)
    curr_scope : option Scope
  }.

(** [Frame.__init__] *)
Definition Frame_init (frame_name : string) : Frame :=
  mkFrame frame_name (Some (mkScope (frame_name ++ ".scope_00") None ∅)).

(** The name [Frame.new_scope] gives the scope it creates. *)
Definition next_scope_name (name : string) : option string :=
  match py_int (str_last2 name) with
  | Some n => Some (str_drop_last2 name ++ fmt_02d (n + 1))
  | None => None
  end.

(** [Frame.new_scope] *)
Definition Frame_new_scope (self : Frame) : Outcome Frame :=
  match curr_scope self with
  | None => Raise AttributeError
  | Some sc =>
      match next_scope_name (scope_name sc) with
      | None => Raise ValueError
      | Some name =>
          Return (mkFrame (frame_name self) (Some (mkScope name (Some sc) ∅)))
      end
  end.

(** [Frame.del_scope] *)
Definition Frame_del_scope (self : Frame) : Outcome Frame :=
  match curr_scope self with
  | None => Raise AttributeError
  | Some sc => Return (mkFrame (frame_name self) (parent_scope sc))
  end.

(** The loop of [Frame.find_key], started at a scope object. *)
Fixpoint Scope_find_key (scope : Scope) (key : string) : option Scope :=
  if Scope_contains scope key then Some scope
  else match parent_scope scope with
       | Some p => Scope_find_key p key
       | None => None
       end.

(** [Frame.find_key] *)
Definition Frame_find_key (self : Frame) (key : string) : option Scope :=
  match curr_scope self with
  | Some scope => Scope_find_key scope key
  | None => None
  end.

(** [Frame._get_scopes] *)
Fixpoint Scope_chain (scope : Scope) : list Scope :=
  scope :: match parent_scope scope with
           | Some p => Scope_chain p
           | None => []
           end.

Definition Frame_get_scopes (self : Frame) : list Scope :=
  match curr_scope self with
  | Some scope => Scope_chain scope
  | None => []
  end.

(** ** class Stack

    [frames] is kept with the most recent frame first, so the Python
    [frames[-1]] is the head of the list.  The attribute [curr_frame]
    always aliases [frames[-1]] ([None] on the empty list): it is read off
    the list, and a change made through it changes the frame in the list. *)

Record Stack : Type := mkStack { frames : list Frame }.

Definition Stack_init : Stack := mkStack [].

Definition curr_frame (self : Stack) : option Frame := head (frames self).

Definition Stack_is_empty (self : Stack) : bool :=
  match curr_frame self with None => true | Some _ => false end.

Definition Stack_new_frame (self : Stack) (frame_name : string) : Stack :=
  mkStack (Frame_init frame_name :: frames self).

(** [Stack.del_frame]: [pop] raises [IndexError] on the empty list. *)
Definition Stack_del_frame (self : Stack) : Outcome Stack :=
  match frames self with
  | [] => Raise IndexError
  | _ :: rest => Return (mkStack rest)
  end.

(** ** class Memory *)

Definition STARTING_ADDRESS : Z := 1000000.

Record Memory : Type :=
  mkMemory {
    global_scope : Scope;
    stack : Stack;
    raw_memory : gmap Z Value;
    next_free_address : Z
  }.

(** [Memory.__init__] *)
Definition Memory_init : Memory :=
  mkMemory (mkScope "global_scope" None ∅) Stack_init ∅ STARTING_ADDRESS.

(** The state the methods run in: the [Memory] object, and how many
    default values the constructors [Number] and [Pointer] have produced
    so far (each call produces a new one). *)
Record State : Type := mkState { mem : Memory; drawn : nat }.

Definition M (A : Type) : Type := State -> Outcome A * State.

#[global] Instance M_ret : MRet M := fun A a s => (Return a, s).
#[global] Instance M_bind : MBind M := fun A B f c s =>
  match c s with
  | (Return a, s') => f a s'
  | (Raise e, s') => (Raise e, s')
  end.

Definition raise {A} (e : PyError) : M A := fun s => (Raise e, s).
Definition get_mem : M Memory := fun s => (Return (mem s), s).
Definition put_mem (m : Memory) : M unit := fun s => (Return tt, mkState m (drawn s)).
Definition lift {A} (o : Outcome A) : M A := fun s => (o, s).

(** A reference to a scope object held in a local variable of a method:
    the global scope, or the current scope of the current frame.  Writing
    through the reference changes the object the [Memory] holds. *)
Inductive ScopeRef : Type := RefGlobal | RefCurrent.

Definition deref (m : Memory) (r : ScopeRef) : option Scope :=
  match r with
  | RefGlobal => Some (global_scope m)
  | RefCurrent =>
      match curr_frame (stack m) with
      | Some f => curr_scope f
      | None => None
      end
  end.

Definition set_curr_frame (st : Stack) (f : Frame) : Stack :=
  match frames st with
  | [] => st
  | _ :: rest => mkStack (f :: rest)
  end.

Definition assign (m : Memory) (r : ScopeRef) (sc : Scope) : Memory :=
  match r with
  | RefGlobal => mkMemory sc (stack m) (raw_memory m) (next_free_address m)
  | RefCurrent =>
      match curr_frame (stack m) with
      | Some f =>
          mkMemory (global_scope m)
            (set_curr_frame (stack m) (mkFrame (frame_name f) (Some sc)))
            (raw_memory m) (next_free_address m)
      | None => m
      end
  end.

Section WithTypes.

(** What the module [types] supplies besides the value classes: the size
    of a type, the set of primitive type names (the keys of [types_py]),
    and the contents the constructors give the successive default values
    (the source calls them random). *)
Variable sizeof : string -> Z.
Variable types_py : gset string.
Variable default_content : nat -> Z.

(** [Number(ttype)] and [Pointer(ttype)] with no value given. *)
Definition new_Number (ttype : string) : M Value := fun s =>
  (Return (Number ttype (default_content (drawn s))), mkState (mem s) (S (drawn s))).

Definition new_Pointer (ttype : string) : M Value := fun s =>
  (Return (Pointer ttype (default_content (drawn s))), mkState (mem s) (S (drawn s))).

(** [Memory.malloc] *)
Definition malloc (block_sz : Z) : M Z :=
  m ← get_mem;
  let ret_address := next_free_address m in
  put_mem (mkMemory (global_scope m) (stack m) (raw_memory m)
             (next_free_address m + block_sz));;
  mret ret_address.

(** [scope[key] = value] through a reference; [scope] may be [None]. *)
Definition ref_setitem (r : option ScopeRef) (key : string) (value : Z) : M unit :=
  m ← get_mem;
  match r with
  | Some r' =>
      match deref m r' with
      | Some sc => put_mem (assign m r' (Scope_setitem sc key value))
      | None => raise TypeError
      end
  | None => raise TypeError
  end.

(** [scope[key]] through a reference. *)
Definition ref_getitem (r : option ScopeRef) (key : string) : M Z :=
  m ← get_mem;
  match r with
  | Some r' =>
      match deref m r' with
      | Some sc => lift (Scope_getitem sc key)
      | None => raise TypeError
      end
  | None => raise TypeError
  end.

(** [Memory.set_at_address] *)
Definition set_at_address (address : Z) (value : Value) : M unit :=
  m ← get_mem;
  put_mem (mkMemory (global_scope m) (stack m)
             (<[address:=value]> (raw_memory m)) (next_free_address m)).

(** [Memory.declare] *)
Definition declare (var_type var_name : string) : M unit :=
  m ← get_mem;
  (* find the current scope *)
  let scope :=
    if Stack_is_empty (stack m) then Some RefGlobal
    else match deref m RefCurrent with
         | Some _ => Some RefCurrent
         | None => None
         end in
  (* name -> address *)
  address ← malloc (sizeof var_type);
  ref_setitem scope var_name address;;
  (* address -> value *)
  match str_last var_type with
  | None => raise IndexError
  | Some c =>
      if bool_decide (c = "*"%char) then
        v ← new_Pointer var_type;
        a ← ref_getitem scope var_name;
        set_at_address a v
      else if bool_decide (var_type ∈ types_py) then
        v ← new_Number var_type;
        a ← ref_getitem scope var_name;
        set_at_address a v
      else
        a ← ref_getitem scope var_name;
        set_at_address a PyNone
  end.

(** [Memory.find_key] *)
Definition find_key (key : string) : M Scope :=
  m ← get_mem;
  match curr_frame (stack m) with
  | None => mret (global_scope m)
  | Some f =>
      (* Look in the current frame *)
      match Frame_find_key f key with
      | Some scope => mret scope
      | None =>
          (* If nothing try in the global scope *)
          if Scope_contains (global_scope m) key then mret (global_scope m)
          else raise (RuntimeError ("Failed to find " ++ key ++ " in the current scope"))
      end
  end.

(** [Memory.get_address] *)
Definition get_address (key : string) : M Z :=
  scope ← find_key key;
  lift (Scope_getitem scope key).

(** [Memory.get_at_address] *)
Definition get_at_address (address : Z) : M Value :=
  m ← get_mem;
  match raw_memory m !! address with
  | Some v => mret v
  | None =>
      (* Return a random number *)
      v ← new_Number "int";
      set_at_address address v;;
      mret v
  end.

(** [Memory.__setitem__] *)
Definition Memory_setitem (key : string) (value : Value) : M unit :=
  address ← get_address key;
  set_at_address address value.

(** [Memory.__getitem__] *)
Definition Memory_getitem (key : string) : M Value :=
  address ← get_address key;
  get_at_address address.

(** [Memory.new_frame] *)
Definition new_frame (frame_name : string) : M unit :=
  m ← get_mem;
  put_mem (mkMemory (global_scope m) (Stack_new_frame (stack m) frame_name)
             (raw_memory m) (next_free_address m)).

(** [Memory.del_frame] *)
Definition del_frame : M unit :=
  m ← get_mem;
  st ← lift (Stack_del_frame (stack m));
  put_mem (mkMemory (global_scope m) st (raw_memory m) (next_free_address m)).

(** A method called on [self.stack.curr_frame]: [AttributeError] when the
    attribute is [None]. *)
Definition on_curr_frame (method : Frame -> Outcome Frame) : M unit :=
  m ← get_mem;
  match curr_frame (stack m) with
  | None => raise AttributeError
  | Some f =>
      f' ← lift (method f);
      put_mem (mkMemory (global_scope m) (set_curr_frame (stack m) f')
                 (raw_memory m) (next_free_address m))
  end.

(** [Memory.new_scope] *)
Definition new_scope : M unit := on_curr_frame Frame_new_scope.

(** [Memory.del_scope] *)
Definition del_scope : M unit := on_curr_frame Frame_del_scope.

End WithTypes.

(** ** The public operations as data

    A client of the memory drives it through these calls, one at a time;
    [exec] is the state a call leaves behind, whether it returned or
    raised (an exception leaves the changes made before it). *)

Inductive Op : Type :=
| OpDeclare (var_type var_name : string)
| OpRead (var_name : string)
| OpWrite (var_name : string) (value : Value)
| OpReadAt (address : Z)
| OpWriteAt (address : Z) (value : Value)
| OpEnterCall (frame_name : string)
| OpLeaveCall
| OpEnterBlock
| OpLeaveBlock.

(** A call of [read_at] or [write_at] is given an address the allocator
    has issued when the call is made. *)
Definition op_admissible (op : Op) (s : State) : Prop :=
  match op with
  | OpReadAt address | OpWriteAt address _ =>
      STARTING_ADDRESS <= address < next_free_address (mem s)
  | _ => True
  end.

Section Runs.

Variable sizeof : string -> Z.
Variable types_py : gset string.
Variable default_content : nat -> Z.

Definition exec (op : Op) (s : State) : State :=
  match op with
  | OpDeclare var_type var_name =>
      snd (declare sizeof types_py default_content var_type var_name s)
  | OpRead var_name => snd (Memory_getitem default_content var_name s)
  | OpWrite var_name value => snd (Memory_setitem var_name value s)
  | OpReadAt address => snd (get_at_address default_content address s)
  | OpWriteAt address value => snd (set_at_address address value s)
  | OpEnterCall frame_name => snd (new_frame frame_name s)
  | OpLeaveCall => snd (del_frame s)
  | OpEnterBlock => snd (new_scope s)
  | OpLeaveBlock => snd (del_scope s)
  end.

Fixpoint run_ops (ops : list Op) (s : State) : State :=
  match ops with
  | [] => s
  | op :: ops' => run_ops ops' (exec op s)
  end.

(** The addresses [malloc] hands to the [declare] calls among [ops], in
    the order of the calls. *)
Fixpoint allocated (ops : list Op) (s : State) : list Z :=
  match ops with
  | [] => []
  | op :: ops' =>
      match op with
      | OpDeclare var_type _ =>
          match fst (malloc (sizeof var_type) s) with
          | Return address => [address]
          | Raise _ => []
          end
      | _ => []
      end ++ allocated ops' (exec op s)
  end.

(** Every [read_at] and [write_at] of the run is given an issued
    address. *)
Fixpoint admissible (ops : list Op) (s : State) : Prop :=
  match ops with
  | [] => True
  | op :: ops' => op_admissible op s /\ admissible ops' (exec op s)
  end.

End Runs.

(** The state of a fresh [Memory()]. *)
Definition initial_state : State := mkState Memory_init 0.

(** An instance of what the module [types] supplies, for the examples:
    every type has size 4, the primitive types are those of C, and the
    n-th default value has content n. *)
Definition sizeof_example (ttype : string) : Z := 4.
Definition types_py_example : gset string := {["char"; "int"; "float"; "double"]}.
Definition content_example (n : nat) : Z := Z.of_nat n.

(** ** Predicates the properties are stated with *)

(** [key] is bound in a scope of the chain of [f]. *)
Definition bound_in_frame (f : Frame) (key : string) : Prop :=
  Exists (fun sc => is_Some (_addresses sc !! key)) (Frame_get_scopes f).

(** [key] can be resolved: with a frame on the stack, it is bound in the
    chain of the current frame or in the global scope; on an empty stack,
    it is bound in the global scope. *)
Definition resolvable (m : Memory) (key : string) : Prop :=
  match curr_frame (stack m) with
  | Some f => bound_in_frame f key \/ is_Some (_addresses (global_scope m) !! key)
  | None => is_Some (_addresses (global_scope m) !! key)
  end.

(** Addresses the allocator has issued: from [STARTING_ADDRESS] up to, and
    excluding, the cursor. *)
Definition issued (m : Memory) (a : Z) : Prop :=
  STARTING_ADDRESS <= a < next_free_address m.

(** Every key of the raw storage is an issued address. *)
Definition storage_keys_issued (m : Memory) : Prop :=
  map_Forall (fun a _ => issued m a) (raw_memory m).

(** The names of the scopes of a frame end in two digits. *)
Definition name_ok (name : string) : Prop := is_Some (py_int (str_last2 name)).

(** Every address bound in scope [sc] is issued. *)
Definition bindings_issued (m : Memory) (sc : Scope) : Prop :=
  map_Forall (fun _ a => issued m a) (_addresses sc).

Definition frame_ok (m : Memory) (f : Frame) : Prop :=
  Forall (fun sc => name_ok (scope_name sc) /\ bindings_issued m sc)
         (Frame_get_scopes f).

(** The invariant of the memory: the cursor never goes below the starting
    address, scopes bind issued addresses only, frames name their scopes
    as [Frame] does, and the raw storage holds issued addresses only, up
    to the addresses [K] lets through. *)
Record consistent_upto (K : Z -> Prop) (m : Memory) : Prop :=
  mkConsistent {
    cursor_above_start : STARTING_ADDRESS <= next_free_address m;
    global_issued : bindings_issued m (global_scope m);
    frames_ok : Forall (frame_ok m) (frames (stack m));
    storage_issued : map_Forall (fun a _ => issued m a \/ K a) (raw_memory m)
  }.

(** The invariant with no exception: the raw storage holds issued
    addresses only. *)
Definition consistent (m : Memory) : Prop := consistent_upto (fun _ => False) m.

(** The part of the invariant that is about the scopes: it lets any
    address be a key of the raw storage. *)
Definition scopes_consistent (m : Memory) : Prop := consistent_upto (fun _ => True) m.

(** The scope a declaration goes to: the global scope if the call stack
    is empty, otherwise the current scope of the current frame. *)
Definition active_ref (m : Memory) : ScopeRef :=
  if Stack_is_empty (stack m) then RefGlobal else RefCurrent.

Definition active_scope (m : Memory) : option Scope := deref m (active_ref m).

(** A call fails fast: it raises and leaves the state as it was. *)
Definition fails_fast {A} (c : M A) (s : State) : Prop :=
  exists e, c s = (Raise e, s).

(** The current scope of the current frame is the scope the frame
    started with. *)
Definition at_base_scope (m : Memory) : Prop :=
  exists f sc, curr_frame (stack m) = Some f /\ curr_scope f = Some sc /\
               parent_scope sc = None.

(** The value [declare] stores for a type name, given the content the
    constructor draws. *)
Definition initial_value (types_py : gset string) (var_type : string) (content : Z) : Value :=
  match str_last var_type with
  | Some c =>
      if bool_decide (c = "*"%char) then Pointer var_type content
      else if bool_decide (var_type ∈ types_py) then Number var_type content
      else PyNone
  | None => PyNone
  end.

(** A string of at least two characters whose last two are digits. *)
Definition ends_in_digits (s : string) : bool :=
  (2 <=? String.length s)%nat &&
  match py_int (str_last2 s) with Some _ => true | None => false end.

(** The invariant on states. *)
Definition inv (K : Z -> Prop) (s : State) : Prop := consistent_upto K (mem s).

(** A call signals an error. *)
Definition raises {A} (c : M A) (s : State) : Prop :=
  exists e, fst (c s) = Raise e.

(** ** Triples for the methods

    [hoare P c Q E]: run from a state satisfying [P], the method [c]
    either returns [a] in a state satisfying [Q a], or raises in a state
    satisfying [E]. *)

Definition hoare {A} (P : State -> Prop) (c : M A)
    (Q : A -> State -> Prop) (E : State -> Prop) : Prop :=
  forall s, P s ->
    match c s with
    | (Return a, s') => Q a s'
    | (Raise _, s') => E s'
    end.

(** The cursor is at [k]. *)
Definition cursor_is (k : Z) (s : State) : Prop := next_free_address (mem s) = k.

(** A method keeps the cursor where it is. *)
Definition keeps_cursor {A} (c : M A) : Prop :=
  forall k, hoare (cursor_is k) c (fun _ => cursor_is k) (cursor_is k).

(** ** Further definitions for the properties of the operations *)

(** The scopes name resolution goes through, in the order it tries them:
    the chain of the current frame from the current scope outwards, then
    the global scope; the global scope alone on an empty call stack. *)
Definition resolution_order (m : Memory) : list Scope :=
  match curr_frame (stack m) with
  | Some f => Frame_get_scopes f ++ [global_scope m]
  | None => [global_scope m]
  end.

(** The address the first scope of a list that binds [key] gives it. *)
Fixpoint first_binding (scopes : list Scope) (key : string) : option Z :=
  match scopes with
  | [] => None
  | sc :: scopes' =>
      match _addresses sc !! key with
      | Some a => Some a
      | None => first_binding scopes' key
      end
  end.

(** Successive calls of [Memory.malloc], one per size. *)
Fixpoint malloc_all (sizes : list Z) : M (list Z) :=
  match sizes with
  | [] => mret []
  | block_sz :: sizes' =>
      a ← malloc block_sz; rest ← malloc_all sizes'; mret (a :: rest)
  end.

(** Blocks laid end to end from [start]: where each begins. *)
Fixpoint block_starts (start : Z) (sizes : list Z) : list Z :=
  match sizes with
  | [] => []
  | block_sz :: sizes' => start :: block_starts (start + block_sz) sizes'
  end.

Definition sum_sizes (sizes : list Z) : Z := foldr Z.add 0 sizes.

(** An operation as a method call, its result dropped. *)
Definition perform (sizeof : string -> Z) (types_py : gset string)
    (default_content : nat -> Z) (op : Op) : M unit :=
  match op with
  | OpDeclare var_type var_name =>
      declare sizeof types_py default_content var_type var_name
  | OpRead var_name => Memory_getitem default_content var_name ;; mret tt
  | OpWrite var_name value => Memory_setitem var_name value
  | OpReadAt address => get_at_address default_content address ;; mret tt
  | OpWriteAt address value => set_at_address address value
  | OpEnterCall frame_name => new_frame frame_name
  | OpLeaveCall => del_frame
  | OpEnterBlock => new_scope
  | OpLeaveBlock => del_scope
  end.

(** What an operation asks of the allocator. *)
Definition declared_size (sizeof : string -> Z) (op : Op) : Z :=
  match op with
  | OpDeclare var_type _ => sizeof var_type
  | _ => 0
  end.

Definition is_declare (op : Op) : bool :=
  match op with OpDeclare _ _ => true | _ => false end.

Definition is_call_op (op : Op) : bool :=
  match op with OpEnterCall _ | OpLeaveCall => true | _ => false end.

Definition is_block_op (op : Op) : bool :=
  match op with OpEnterBlock | OpLeaveBlock => true | _ => false end.

(** The calls entered in [ops] are left in [ops], and [ops] leaves no call
    it did not enter: [depth] counts the calls entered and not yet left. *)
Fixpoint calls_balanced (depth : nat) (ops : list Op) : bool :=
  match ops with
  | [] => Nat.eqb depth 0
  | OpEnterCall _ :: ops' => calls_balanced (S depth) ops'
  | OpLeaveCall :: ops' =>
      match depth with
      | O => false
      | S depth' => calls_balanced depth' ops'
      end
  | _ :: ops' => calls_balanced depth ops'
  end.

(** Blocks and calls are properly nested in [ops].  [inner] lists, for
    the calls entered and not yet left, innermost first, how many blocks
    each has entered and not yet left; [k] is that number for the frame
    the run started in.  A call may be left with blocks still open in it;
    no block is left that was not entered in the same call, and at the
    end nothing is open. *)
Fixpoint well_nested (inner : list nat) (k : nat) (ops : list Op) : bool :=
  match ops with
  | [] => match inner, k with [], O => true | _, _ => false end
  | OpEnterBlock :: ops' =>
      match inner with
      | d :: inner' => well_nested (S d :: inner') k ops'
      | [] => well_nested [] (S k) ops'
      end
  | OpLeaveBlock :: ops' =>
      match inner with
      | S d :: inner' => well_nested (d :: inner') k ops'
      | O :: _ => false
      | [] => match k with
              | S k' => well_nested [] k' ops'
              | O => false
              end
      end
  | OpEnterCall _ :: ops' => well_nested (O :: inner) k ops'
  | OpLeaveCall :: ops' =>
      match inner with
      | _ :: inner' => well_nested inner' k ops'
      | [] => false
      end
  | _ :: ops' => well_nested inner k ops'
  end.

(** The scope [cur] is [k] blocks inside a scope whose parent is [base],
    and the names on the way are names [new_scope] can continue. *)
Fixpoint above (k : nat) (cur : Scope) (base : option Scope) : Prop :=
  name_ok (scope_name cur) /\
  match k with
  | O => parent_scope cur = base
  | S k' => exists p, parent_scope cur = Some p /\ above k' p base
  end.

Definition frame_at (k : nat) (base : option Scope) (f : Frame) : Prop :=
  exists cur, curr_scope f = Some cur /\ above k cur base.

(** [Frame.new_scope] repeated [k] times. *)
Fixpoint Frame_nest (k : nat) (f : Frame) : Outcome Frame :=
  match k with
  | O => Return f
  | S k' =>
      match Frame_nest k' f with
      | Return f' => Frame_new_scope f'
      | Raise e => Raise e
      end
  end.

(** A memory in which the frame of a call has lost its current scope:
    the block left was the one the frame started with. *)
Definition state_lost_scope : State :=
  run_ops sizeof_example types_py_example content_example
    [OpEnterCall "f"; OpLeaveBlock] initial_state.

(** * Properties *)

(** ** Running the monad *)

Ltac unfold_monad :=
  unfold mbind, M_bind, mret, M_ret, get_mem, put_mem, raise, lift in *.

Lemma bind_Return {A B} (c : M A) (k : A -> M B) s a s' :
  c s = (Return a, s') -> (c ≫= k) s = k a s'.
Proof. intros H. unfold_monad. by rewrite H. Qed.

Lemma bind_Raise {A B} (c : M A) (k : A -> M B) s e s' :
  c s = (Raise e, s') -> (c ≫= k) s = (Raise e, s').
Proof. intros H. unfold_monad. by rewrite H. Qed.

(** ** Induction along a scope chain *)

Lemma Scope_chain_ind (P : Scope -> Prop)
    (Hbase : forall name tbl, P (mkScope name None tbl))
    (Hstep : forall name p tbl, P p -> P (mkScope name (Some p) tbl)) :
  forall sc, P sc.
Proof.
  fix IH 1. intros [name [p|] tbl].
  - apply Hstep, IH.
  - apply Hbase.
Qed.

Lemma Scope_contains_spec sc key :
  Scope_contains sc key = true <-> is_Some (_addresses sc !! key).
Proof. unfold Scope_contains. by rewrite bool_decide_eq_true. Qed.

Lemma Scope_contains_false sc key :
  Scope_contains sc key = false <-> _addresses sc !! key = None.
Proof.
  unfold Scope_contains. rewrite bool_decide_eq_false.
  by rewrite eq_None_not_Some.
Qed.

(** The scope [find_key] returns is in the chain and binds the key. *)
Lemma Scope_find_key_Some sc key sc' :
  Scope_find_key sc key = Some sc' ->
  sc' ∈ Scope_chain sc /\ is_Some (_addresses sc' !! key).
Proof.
  induction sc as [name tbl | name p tbl IH] using Scope_chain_ind; simpl.
  - destruct (Scope_contains _ key) eqn:E; [|done].
    intros [= <-]. split; [by left|]. by apply Scope_contains_spec.
  - destruct (Scope_contains _ key) eqn:E.
    + intros [= <-]. split; [by left|]. by apply Scope_contains_spec.
    + intros H. destruct (IH H) as [Hin Hb]. split; [by right|done].
Qed.

(** [find_key] finds nothing exactly when no scope of the chain binds
    the key. *)
Lemma Scope_find_key_None sc key :
  Scope_find_key sc key = None <->
  Forall (fun sc' => _addresses sc' !! key = None) (Scope_chain sc).
Proof.
  induction sc as [name tbl | name p tbl IH] using Scope_chain_ind; simpl.
  - destruct (Scope_contains _ key) eqn:E.
    + apply Scope_contains_spec in E. simpl in E. split; [done|].
      rewrite Forall_singleton. simpl. intros H. rewrite H in E.
      by destruct E.
    + apply Scope_contains_false in E. split; [|done]. intros _.
      by apply Forall_singleton.
  - destruct (Scope_contains _ key) eqn:E.
    + apply Scope_contains_spec in E. simpl in E. split; [done|].
      rewrite Forall_cons. simpl. intros [H _]. rewrite H in E.
      by destruct E.
    + apply Scope_contains_false in E. rewrite IH, Forall_cons.
      split; [by split|by intros [_ ?]].
Qed.

Lemma Frame_find_key_Some f key sc :
  Frame_find_key f key = Some sc ->
  sc ∈ Frame_get_scopes f /\ is_Some (_addresses sc !! key).
Proof.
  unfold Frame_find_key, Frame_get_scopes. destruct (curr_scope f); [|done].
  apply Scope_find_key_Some.
Qed.

Lemma Frame_find_key_None f key :
  Frame_find_key f key = None <-> ~ bound_in_frame f key.
Proof.
  unfold Frame_find_key, bound_in_frame, Frame_get_scopes.
  destruct (curr_scope f) as [sc|].
  - rewrite Scope_find_key_None, <- Forall_Exists_neg.
    apply Forall_iff. intros sc'. by rewrite eq_None_not_Some.
  - split; [|done]. intros _ H. by apply Exists_nil in H.
Qed.

(** ** Name resolution *)

Lemma find_key_state key s : snd (find_key key s) = s.
Proof.
  unfold find_key. unfold_monad.
  destruct (curr_frame _); [|done].
  destruct (Frame_find_key _ _); [done|].
  by destruct (Scope_contains _ _).
Qed.

Lemma get_address_state key s : snd (get_address key s) = s.
Proof.
  unfold get_address. unfold_monad.
  pose proof (find_key_state key s) as H.
  destruct (find_key key s) as [[sc|e] s']; simpl in *; by subst.
Qed.

(** A resolvable name has an address. *)
Lemma get_address_resolvable key s :
  resolvable (mem s) key <-> exists a, get_address key s = (Return a, s).
Proof.
  unfold resolvable, get_address, find_key, Scope_getitem. unfold_monad.
  destruct (curr_frame _) as [f|].
  - destruct (Frame_find_key f key) as [sc|] eqn:E.
    + apply Frame_find_key_Some in E as [Hin [a Ha]]. rewrite Ha. split.
      * eauto.
      * intros _. left. apply Exists_exists. by exists sc; eauto.
    + apply Frame_find_key_None in E.
      destruct (Scope_contains _ key) eqn:Eg.
      * apply Scope_contains_spec in Eg. destruct Eg as [a Ha]. rewrite Ha.
        split; eauto.
      * apply Scope_contains_false in Eg. rewrite Eg. split.
        -- intros [?|[? ?]]; done.
        -- intros [? ?]; done.
  - destruct (_addresses _ !! key) as [a|]; split; eauto.
    + intros [? ?]; done.
    + intros [? ?]; done.
Qed.

(** An unresolvable name raises: [KeyError] from the global scope's table
    on an empty stack, the [RuntimeError] of [find_key] otherwise. *)
Lemma get_address_unresolvable key s :
  ~ resolvable (mem s) key ->
  get_address key s =
    (Raise (if Stack_is_empty (stack (mem s)) then KeyError key
            else RuntimeError ("Failed to find " ++ key ++ " in the current scope")),
     s).
Proof.
  unfold resolvable, get_address, find_key, Scope_getitem, Stack_is_empty.
  unfold_monad. destruct (curr_frame _) as [f|].
  - intros H. destruct (Frame_find_key f key) as [sc|] eqn:E.
    + apply Frame_find_key_Some in E as [Hin Hb]. destruct H. left.
      apply Exists_exists. by exists sc.
    + destruct (Scope_contains _ key) eqn:Eg; [|done].
      apply Scope_contains_spec in Eg. destruct H. by right.
  - intros H. destruct (_addresses _ !! key) eqn:E; [|done].
    destruct H. eauto.
Qed.

(** Resolution reads the current frame and the global scope, nothing else
    of the state. *)
Lemma get_address_reads g f rest1 rest2 raw1 raw2 nfa1 nfa2 d1 d2 key :
  fst (get_address key (mkState (mkMemory g (mkStack (f :: rest1)) raw1 nfa1) d1)) =
  fst (get_address key (mkState (mkMemory g (mkStack (f :: rest2)) raw2 nfa2) d2)).
Proof.
  unfold get_address, find_key. unfold_monad. simpl.
  destruct (Frame_find_key f key); [done|].
  by destruct (Scope_contains g key).
Qed.

Lemma Frame_find_key_init frame_name key :
  Frame_find_key (Frame_init frame_name) key = None.
Proof.
  apply Frame_find_key_None. unfold bound_in_frame, Frame_get_scopes.
  cbn [Frame_init curr_scope Scope_chain parent_scope].
  rewrite Exists_cons, Exists_nil. cbn [_addresses]. rewrite lookup_empty.
  by intros [[? ?]|?].
Qed.

(** In a frame just entered, only the global scope resolves a name. *)
Lemma get_address_fresh_frame frame_name key s :
  get_address key (snd (new_frame frame_name s)) =
    (match _addresses (global_scope (mem s)) !! key with
     | Some a => Return a
     | None => Raise (RuntimeError ("Failed to find " ++ key ++ " in the current scope"))
     end, snd (new_frame frame_name s)).
Proof.
  unfold get_address, find_key, new_frame, Scope_getitem. unfold_monad.
  cbn [snd mem stack global_scope curr_frame Stack_new_frame frames head].
  rewrite Frame_find_key_init.
  destruct (Scope_contains _ key) eqn:E.
  - apply Scope_contains_spec in E as [a Ha]. by rewrite Ha.
  - apply Scope_contains_false in E. by rewrite E.
Qed.

(** ** Raw storage *)

Lemma set_at_address_run address value s :
  set_at_address address value s =
    (Return tt,
     mkState (mkMemory (global_scope (mem s)) (stack (mem s))
                (<[address:=value]> (raw_memory (mem s)))
                (next_free_address (mem s)))
             (drawn s)).
Proof. done. Qed.

Lemma get_at_address_stored dc address v s :
  raw_memory (mem s) !! address = Some v ->
  get_at_address dc address s = (Return v, s).
Proof. intros H. unfold get_at_address. unfold_monad. by rewrite H. Qed.

Lemma get_at_address_fresh dc address s :
  raw_memory (mem s) !! address = None ->
  get_at_address dc address s =
    (Return (Number "int" (dc (drawn s))),
     mkState (mkMemory (global_scope (mem s)) (stack (mem s))
                (<[address:=Number "int" (dc (drawn s))]> (raw_memory (mem s)))
                (next_free_address (mem s)))
             (S (drawn s))).
Proof. intros H. unfold get_at_address. unfold_monad. by rewrite H. Qed.

Lemma Memory_setitem_run key value a s :
  get_address key s = (Return a, s) ->
  Memory_setitem key value s = set_at_address a value s.
Proof. intros H. unfold Memory_setitem. by rewrite (bind_Return _ _ _ _ _ H). Qed.

Lemma Memory_getitem_run dc key a s :
  get_address key s = (Return a, s) ->
  Memory_getitem dc key s = get_at_address dc a s.
Proof. intros H. unfold Memory_getitem. by rewrite (bind_Return _ _ _ _ _ H). Qed.

(** Resolution does not look at the raw storage, the cursor or the count
    of default values. *)
Lemma get_address_scopes m raw nfa d d' key :
  fst (get_address key (mkState (mkMemory (global_scope m) (stack m) raw nfa) d)) =
  fst (get_address key (mkState m d')).
Proof.
  unfold get_address, find_key. unfold_monad. simpl.
  destruct (curr_frame (stack m)); [|done].
  destruct (Frame_find_key _ key); [done|].
  by destruct (Scope_contains _ key).
Qed.

Lemma get_address_after_store key a b v s :
  get_address key s = (Return a, s) ->
  get_address key (snd (set_at_address b v s)) =
    (Return a, snd (set_at_address b v s)).
Proof.
  intros H. rewrite set_at_address_run. simpl.
  apply injective_projections; [|apply get_address_state].
  rewrite get_address_scopes with (d' := drawn s). simpl.
  destruct s as [m d]. simpl. by rewrite H.
Qed.

(** ** Declarations *)

Lemma deref_assign m r sc sc' :
  deref m r = Some sc -> deref (assign m r sc') r = Some sc'.
Proof.
  destruct r; simpl; [done|]. unfold curr_frame, set_curr_frame.
  destruct m as [g [[|f rest]] raw nfa]; simpl; [done|]. done.
Qed.

Lemma deref_cursor g st raw raw' nfa nfa' r :
  deref (mkMemory g st raw nfa) r = deref (mkMemory g st raw' nfa') r.
Proof. by destruct r. Qed.

Lemma assign_raw m r sc : raw_memory (assign m r sc) = raw_memory m.
Proof. destruct r; simpl; [done|]. by destruct (curr_frame _). Qed.

Lemma assign_cursor m r sc : next_free_address (assign m r sc) = next_free_address m.
Proof. destruct r; simpl; [done|]. by destruct (curr_frame _). Qed.

Lemma assign_is_empty m r sc :
  Stack_is_empty (stack (assign m r sc)) = Stack_is_empty (stack m).
Proof.
  destruct r; simpl; [done|].
  unfold Stack_is_empty, curr_frame, set_curr_frame.
  by destruct m as [g [[|f rest]] raw nfa].
Qed.

Lemma Scope_setitem_lookup sc key a :
  _addresses (Scope_setitem sc key a) !! key = Some a.
Proof. simpl. apply lookup_insert_eq. Qed.

Lemma str_last_nonempty s : s <> "" -> exists c, str_last s = Some c.
Proof.
  unfold str_last. destruct s as [|c0 t]; [done|]. intros _. simpl.
  rewrite Nat.sub_0_r. revert c0.
  induction t as [|c1 t IH]; intros c0; simpl; [eauto|]. apply (IH c1).
Qed.

Lemma str_last_empty : str_last "" = None.
Proof. done. Qed.

Lemma active_scope_scopes m raw nfa :
  active_scope (mkMemory (global_scope m) (stack m) raw nfa) = active_scope m.
Proof. unfold active_scope, active_ref. cbn [stack]. by destruct (Stack_is_empty _). Qed.

Lemma active_ref_assign m r sc : active_ref (assign m r sc) = active_ref m.
Proof. unfold active_ref. by rewrite assign_is_empty. Qed.

Lemma active_scope_assign m sc sc' :
  active_scope m = Some sc ->
  active_scope (assign m (active_ref m) sc') = Some sc'.
Proof.
  unfold active_scope. rewrite active_ref_assign. intros H; by apply (deref_assign _ _ sc).
Qed.

(** A name bound in the active scope resolves to the address bound there. *)
Lemma get_address_active m d sc key a :
  active_scope m = Some sc ->
  _addresses sc !! key = Some a ->
  get_address key (mkState m d) = (Return a, mkState m d).
Proof.
  intros Hact Hb. apply injective_projections; [|apply get_address_state].
  revert Hact. unfold active_scope, active_ref, Stack_is_empty, deref.
  unfold get_address, find_key, Scope_getitem. unfold_monad. cbn [mem fst].
  destruct (curr_frame (stack m)) as [f|].
  - intros Hact. unfold Frame_find_key. rewrite Hact.
    destruct sc as [name p tbl]. cbn [Scope_find_key].
    rewrite (proj2 (Scope_contains_spec _ _)) by eauto.
    cbn [fst]. by rewrite Hb.
  - intros [= ->]. cbn [fst]. by rewrite Hb.
Qed.

(** What a successful [declare] does: it takes the cursor as the address,
    advances the cursor by the size of the type, binds the name in the
    active scope and stores the initial value of the type at the address. *)
Lemma declare_run sizeof types_py dc var_type var_name s sc :
  var_type <> "" ->
  active_scope (mem s) = Some sc ->
  let a := next_free_address (mem s) in
  let v := initial_value types_py var_type (dc (drawn s)) in
  let m' := assign (mem s) (active_ref (mem s)) (Scope_setitem sc var_name a) in
  exists d',
    declare sizeof types_py dc var_type var_name s =
      (Return tt,
       mkState (mkMemory (global_scope m') (stack m') (<[a:=v]> (raw_memory (mem s)))
                  (a + sizeof var_type)) d').
Proof.
  intros Hne Hact a v m'.
  destruct (str_last_nonempty var_type Hne) as [c Hc].
  subst v. unfold initial_value. rewrite Hc.
  unfold active_scope, active_ref in *. subst m'.
  destruct s as [m d]. cbn [mem drawn] in *.
  unfold declare, malloc, ref_setitem, ref_getitem, set_at_address,
    new_Pointer, new_Number. unfold_monad. cbn [mem drawn].
  rewrite Hc.
  destruct (Stack_is_empty (stack m)) eqn:Hemp.
  - simpl in Hact. injection Hact as <-. simpl.
    destruct (bool_decide (c = "*"%char)); [|destruct (bool_decide (var_type ∈ types_py))];
      simpl; unfold Scope_getitem; rewrite Scope_setitem_lookup; simpl; eauto.
  - rewrite Hact. cbn [mem drawn].
    rewrite (deref_cursor _ _ _ (raw_memory m) _ (next_free_address m)).
    destruct m as [g st raw nfa]. cbn [global_scope stack raw_memory next_free_address] in *.
    rewrite Hact. cbn [mem drawn].
    simpl in Hact. unfold Stack_is_empty in Hemp.
    destruct st as [[|f rest]]; simpl in Hemp, Hact; [done|].
    destruct (bool_decide (c = "*"%char)); [|destruct (bool_decide (var_type ∈ types_py))];
      simpl; unfold Scope_getitem; rewrite Scope_setitem_lookup; simpl; eauto.
Qed.

(** [declare] returns only for a non-empty type name and with an active
    scope to bind in. *)
Lemma declare_returns sizeof types_py dc var_type var_name s s' :
  declare sizeof types_py dc var_type var_name s = (Return tt, s') ->
  var_type <> "" /\ is_Some (active_scope (mem s)).
Proof.
  unfold declare, malloc, ref_setitem, active_scope, active_ref. unfold_monad.
  cbn [mem drawn]. destruct (Stack_is_empty (stack (mem s))) eqn:Hemp.
  - cbn [deref mem global_scope]. destruct var_type as [|c t]; [done|].
    intros _. split; [done|eauto].
  - destruct (deref (mem s) RefCurrent) as [sc|] eqn:Hd; [|done].
    rewrite (deref_cursor _ _ _ (raw_memory (mem s)) _ (next_free_address (mem s))).
    destruct (mem s) as [g st raw nfa]. cbn [global_scope stack raw_memory next_free_address].
    rewrite Hd. destruct var_type as [|c t]; [done|].
    intros _. split; [done|eauto].
Qed.

(** The address [malloc] returns to a [declare] that returns is the
    address the declared name resolves to afterwards. *)
Lemma declare_binds_malloc_address sizeof types_py dc var_type var_name s s' :
  declare sizeof types_py dc var_type var_name s = (Return tt, s') ->
  exists a, fst (malloc (sizeof var_type) s) = Return a /\
            get_address var_name s' = (Return a, s').
Proof.
  intros Hrun. destruct (declare_returns _ _ _ _ _ _ _ Hrun) as [Hne [sc Hact]].
  destruct (declare_run sizeof types_py dc var_type var_name s sc Hne Hact) as [d' Hrun'].
  cbn zeta in Hrun'. rewrite Hrun in Hrun'. injection Hrun' as ->.
  exists (next_free_address (mem s)). split; [done|].
  eapply get_address_active.
  - rewrite active_scope_scopes. by apply (active_scope_assign _ sc).
  - apply Scope_setitem_lookup.
Qed.

(** ** Reading and writing by name *)

(** C1 (round trip). For every name that is resolvable in the current
    state and every value, [write(var_name, value)] followed immediately
    by [read(var_name)] returns exactly that value: the sequence
    [Memory.__setitem__; Memory.__getitem__] returns [value], in the state
    the write left. *)
Theorem write_read_round_trip dc key value s :
  resolvable (mem s) key ->
  fst (Memory_setitem key value s) = Return tt /\
  (Memory_setitem key value ;; Memory_getitem dc key) s =
    (Return value, snd (Memory_setitem key value s)).
Proof.
  intros Hres. apply get_address_resolvable in Hres as [a Ha].
  rewrite (Memory_setitem_run _ _ _ _ Ha). split; [done|].
  pose proof (get_address_after_store key a a value s Ha) as Ha'.
  erewrite bind_Return.
  2:{ rewrite (Memory_setitem_run _ _ _ _ Ha). apply set_at_address_run. }
  rewrite set_at_address_run in *. cbn [snd] in *.
  rewrite (Memory_getitem_run _ _ _ _ Ha').
  apply get_at_address_stored. cbn [mem raw_memory].
  apply lookup_insert_eq.
Qed.

(** C10 (frame of a write). For a resolvable name, [write(var_name, value)]
    returns normally and changes the raw storage entry at the resolved
    address only: the storage becomes the old one with that one entry
    set, every other address keeps its entry, and the global scope, the
    call stack with all its frames and scopes, the cursor and the count of
    default values are as before. *)
Theorem write_changes_one_entry key value s :
  resolvable (mem s) key ->
  exists a s',
    get_address key s = (Return a, s) /\
    Memory_setitem key value s = (Return tt, s') /\
    raw_memory (mem s') = <[a:=value]> (raw_memory (mem s)) /\
    (forall b, b <> a -> raw_memory (mem s') !! b = raw_memory (mem s) !! b) /\
    global_scope (mem s') = global_scope (mem s) /\
    stack (mem s') = stack (mem s) /\
    next_free_address (mem s') = next_free_address (mem s) /\
    drawn s' = drawn s.
Proof.
  intros Hres. apply get_address_resolvable in Hres as [a Ha].
  exists a. eexists. split; [done|]. split.
  { rewrite (Memory_setitem_run _ _ _ _ Ha). apply set_at_address_run. }
  cbn [mem raw_memory global_scope stack next_free_address drawn].
  repeat split. intros b Hb. by apply lookup_insert_ne.
Qed.

(** C6 (stable uninitialized reads). [read_at] on an address with no
    stored entry returns a default numeric value (a [Number] of type
    [int]), stores it at that address, and a second [read_at] with no
    write in between returns the identical value and changes nothing: no
    new value is produced. *)
Theorem uninitialized_read_is_stable dc address s :
  raw_memory (mem s) !! address = None ->
  exists v s1,
    v = Number "int" (dc (drawn s)) /\
    get_at_address dc address s = (Return v, s1) /\
    raw_memory (mem s1) !! address = Some v /\
    get_at_address dc address s1 = (Return v, s1).
Proof.
  intros Hnone. eexists. eexists. split; [done|]. split.
  { by apply get_at_address_fresh. }
  assert (forall m : gmap Z Value, forall v, <[address:=v]> m !! address = Some v) as Hl.
  { intros. apply lookup_insert_eq. }
  split; [apply Hl|]. apply get_at_address_stored. apply Hl.
Qed.

(** C4 (fatal on unknown name). [resolve_address] on a name that is bound
    neither in the chain of the active frame nor in the global scope
    raises and leaves the state as it was; it never returns an address.
    The exception is the [RuntimeError] of [Memory.find_key] when a frame
    is active, and the [KeyError] of the global scope's table when the
    call stack is empty.  In particular [resolve_address("undeclared")]
    in a fresh memory (empty global scope, empty call stack) raises. *)
Theorem unknown_name_is_fatal key s :
  (~ resolvable (mem s) key ->
   fails_fast (get_address key) s /\
   get_address key s =
     (Raise (if Stack_is_empty (stack (mem s)) then KeyError key
             else RuntimeError ("Failed to find " ++ key ++ " in the current scope")),
      s)) /\
  fails_fast (get_address "undeclared") initial_state.
Proof.
  split.
  - intros H. pose proof (get_address_unresolvable key s H) as E.
    split; [|done]. eexists. exact E.
  - eexists. apply get_address_unresolvable. cbn. by intros [? ?].
Qed.

(** C7 (declaration classification). For a type name (a non-empty
    string) and an active scope, [declare(type_name, var_name)] returns
    normally; the address it uses is the cursor, which no scope binds and
    no storage holds in a consistent memory, and the cursor advances by
    the size of the type; the active scope (the global scope on an empty
    call stack, otherwise the current scope of the current frame) becomes
    itself with [var_name] bound to that address, so the name resolves to
    it; and the raw storage gets, at that address, a default [Pointer] if
    the type name ends in [*], a default [Number] if it is a primitive
    type name, and [None] otherwise. *)
Theorem declare_classifies sizeof types_py dc var_type var_name s sc :
  var_type <> "" ->
  active_scope (mem s) = Some sc ->
  let a := next_free_address (mem s) in
  let m' := assign (mem s) (active_ref (mem s)) (Scope_setitem sc var_name a) in
  exists s',
    declare sizeof types_py dc var_type var_name s = (Return tt, s') /\
    ~ issued (mem s) a /\
    next_free_address (mem s') = a + sizeof var_type /\
    global_scope (mem s') = global_scope m' /\
    stack (mem s') = stack m' /\
    active_scope (mem s') = Some (Scope_setitem sc var_name a) /\
    get_address var_name s' = (Return a, s') /\
    exists c, str_last var_type = Some c /\
      raw_memory (mem s') =
        <[a := if bool_decide (c = "*"%char) then Pointer var_type (dc (drawn s))
               else if bool_decide (var_type ∈ types_py) then Number var_type (dc (drawn s))
               else PyNone]> (raw_memory (mem s)).
Proof.
  intros Hne Hact a m'.
  destruct (declare_run sizeof types_py dc var_type var_name s sc Hne Hact)
    as [d' Hrun].
  eexists. split; [exact Hrun|]. cbn [mem next_free_address raw_memory global_scope stack].
  assert (active_scope
            (mkMemory (global_scope m') (stack m')
               (<[a:=initial_value types_py var_type (dc (drawn s))]> (raw_memory (mem s)))
               (a + sizeof var_type)) = Some (Scope_setitem sc var_name a)) as Hact'.
  { rewrite active_scope_scopes. by apply (active_scope_assign _ sc). }
  split; [unfold issued; subst a; lia|].
  do 3 (split; [done|]). split; [exact Hact'|]. split.
  - eapply get_address_active; [exact Hact'|]. apply Scope_setitem_lookup.
  - destruct (str_last_nonempty var_type Hne) as [c Hc]. exists c.
    split; [done|]. unfold initial_value. by rewrite Hc.
Qed.

(** ** Scope names *)

Lemma length_app_str (p q : string) :
  String.length (p ++ q) = (String.length p + String.length q)%nat.
Proof. induction p as [|c p IH]; simpl; [done|]. by rewrite IH. Qed.

Lemma str_last2_app p q :
  (2 <= String.length q)%nat -> str_last2 (p ++ q) = str_last2 q.
Proof.
  intros Hq. unfold str_last2. induction p as [|c p IH]; [done|].
  change (String c p ++ q) with (String c (p ++ q)).
  cbn [String.length]. pose proof (length_app_str p q) as Hl.
  replace (S (String.length (p ++ q)) - 2)%nat
    with (S (String.length (p ++ q) - 2))%nat by lia.
  exact IH.
Qed.

Lemma is_digit_val c : is_digit c = true -> 0 <= digit_val c <= 9.
Proof.
  unfold is_digit, digit_val. rewrite andb_true_iff.
  rewrite !Nat.leb_le. lia.
Qed.

Lemma length_substring_le n k s : (String.length (substring n k s) <= k)%nat.
Proof.
  revert n k. induction s as [|c s IH]; intros [|n] [|k]; simpl; try lia.
  - specialize (IH 0%nat k). lia.
  - apply (IH n 0%nat).
  - apply (IH n (S k)).
Qed.

(** The last two characters of a name read as a number below 100. *)
Lemma py_int_last2_range name n :
  py_int (str_last2 name) = Some n -> 0 <= n <= 99.
Proof.
  unfold str_last2.
  pose proof (length_substring_le (String.length name - 2) 2 name) as Hl.
  destruct (substring _ 2 name) as [|c1 [|c2 [|c3 t]]]; simpl in *; [done| | |lia].
  - destruct (is_digit c1) eqn:E1; [|done]. intros [= <-].
    apply is_digit_val in E1. lia.
  - destruct (is_digit c1) eqn:E1; [|done].
    destruct (is_digit c2) eqn:E2; [|done]. intros [= <-].
    apply is_digit_val in E1, E2. lia.
Qed.

(** What [new_scope] formats ends in two digits again. *)
Lemma fmt_02d_ends_in_digits n :
  0 <= n <= 99 -> ends_in_digits (fmt_02d (n + 1)) = true.
Proof.
  intros Hn.
  assert (forallb (fun k => ends_in_digits (fmt_02d (Z.of_nat k + 1))) (seq 0 100) = true)
    as Hall by (vm_compute; reflexivity).
  rewrite forallb_forall in Hall.
  specialize (Hall (Z.to_nat n)). rewrite Z2Nat.id in Hall by lia.
  apply Hall. apply in_seq. lia.
Qed.

Lemma ends_in_digits_app p q : ends_in_digits q = true -> name_ok (p ++ q).
Proof.
  unfold ends_in_digits, name_ok. rewrite andb_true_iff, Nat.leb_le.
  intros [Hl Hd]. rewrite str_last2_app by done.
  destruct (py_int (str_last2 q)); [eauto|done].
Qed.

Lemma next_scope_name_ok name name' :
  next_scope_name name = Some name' -> name_ok name'.
Proof.
  unfold next_scope_name. destruct (py_int (str_last2 name)) as [n|] eqn:E; [|done].
  intros [= <-]. apply ends_in_digits_app, fmt_02d_ends_in_digits.
  by apply py_int_last2_range in E.
Qed.

Lemma name_ok_next name : name_ok name -> is_Some (next_scope_name name).
Proof.
  unfold name_ok, next_scope_name. intros [n ->]. eauto.
Qed.

Lemma Frame_init_name_ok frame_name : name_ok (frame_name ++ ".scope_00").
Proof. by apply ends_in_digits_app. Qed.

Lemma hoare_bind {A B} P (c : M A) Q (k : A -> M B) R E :
  hoare P c Q E -> (forall a, hoare (Q a) (k a) R E) -> hoare P (c ≫= k) R E.
Proof.
  intros Hc Hk s Hs. specialize (Hc s Hs). unfold_monad.
  destruct (c s) as [[a|e] s']; [|done]. by apply Hk.
Qed.

Lemma hoare_ret {A} (P : State -> Prop) (a : A) (Q : A -> State -> Prop) E :
  (forall s, P s -> Q a s) -> hoare P (mret a) Q E.
Proof. intros H s Hs. by apply H. Qed.

Lemma hoare_raise {A} (P : State -> Prop) e (Q : A -> State -> Prop) (E : State -> Prop) :
  (forall s, P s -> E s) -> hoare P (raise e) Q E.
Proof. intros H s Hs. by apply H. Qed.

Lemma hoare_get_mem (P : State -> Prop) E :
  hoare P get_mem (fun m s => P s /\ m = mem s) E.
Proof. intros s Hs. by split. Qed.

Lemma hoare_put_mem (P : State -> Prop) m (Q : unit -> State -> Prop) E :
  (forall s, P s -> Q tt (mkState m (drawn s))) -> hoare P (put_mem m) Q E.
Proof. intros H s Hs. by apply H. Qed.

Lemma hoare_weaken {A} (P P' : State -> Prop) (c : M A) (Q Q' : A -> State -> Prop)
    (E E' : State -> Prop) :
  hoare P c Q E -> (forall s, P' s -> P s) -> (forall a s, Q a s -> Q' a s) ->
  (forall s, E s -> E' s) -> hoare P' c Q' E'.
Proof.
  intros H HP HQ HE s Hs. specialize (H s (HP s Hs)).
  destruct (c s) as [[a|e] s']; auto.
Qed.

(** ** The invariant *)

Section Invariant.

Variable K : Z -> Prop.

Lemma issued_mono m m' a :
  next_free_address m <= next_free_address m' -> issued m a -> issued m' a.
Proof. unfold issued. lia. Qed.

Lemma bindings_issued_mono m m' sc :
  next_free_address m <= next_free_address m' ->
  bindings_issued m sc -> bindings_issued m' sc.
Proof.
  intros Hle Hb. unfold bindings_issued in *.
  eapply map_Forall_impl; [exact Hb|]. intros ? a. by apply issued_mono.
Qed.

Lemma frame_ok_mono m m' f :
  next_free_address m <= next_free_address m' -> frame_ok m f -> frame_ok m' f.
Proof.
  intros Hle Hf. unfold frame_ok in *. eapply Forall_impl; [exact Hf|].
  intros sc [Hn Hb]. split; [done|]. by apply (bindings_issued_mono m).
Qed.

Lemma consistent_initial : consistent_upto K Memory_init.
Proof.
  split; simpl.
  - done.
  - apply map_Forall_empty.
  - constructor.
  - apply map_Forall_empty.
Qed.

(** Moving the cursor forward keeps the memory consistent. *)
Lemma consistent_cursor m nfa :
  consistent_upto K m -> next_free_address m <= nfa ->
  consistent_upto K (mkMemory (global_scope m) (stack m) (raw_memory m) nfa).
Proof.
  intros [H1 H2 H3 H4] Hle. split; cbn [global_scope stack raw_memory next_free_address].
  - lia.
  - by apply (bindings_issued_mono m).
  - eapply Forall_impl; [exact H3|]. intros f. by apply frame_ok_mono.
  - eapply map_Forall_impl; [exact H4|]. intros a ? [Hi|Hk]; [left|by right].
    by apply (issued_mono m).
Qed.

(** Storing at an issued address keeps the memory consistent. *)
Lemma consistent_store m a v :
  consistent_upto K m -> issued m a \/ K a ->
  consistent_upto K (mkMemory (global_scope m) (stack m) (<[a:=v]> (raw_memory m))
                (next_free_address m)).
Proof.
  intros [H1 H2 H3 H4] Ha. split; try done.
  cbn [raw_memory]. by apply map_Forall_insert_2.
Qed.

Lemma bindings_issued_setitem m sc key a :
  bindings_issued m sc -> issued m a ->
  bindings_issued m (Scope_setitem sc key a).
Proof. intros Hb Ha. unfold bindings_issued. simpl. by apply map_Forall_insert_2. Qed.

(** Binding an issued address in the scope behind a reference keeps the
    memory consistent. *)
Lemma consistent_assign m r sc key a :
  consistent_upto K m -> deref m r = Some sc -> issued m a ->
  consistent_upto K (assign m r (Scope_setitem sc key a)).
Proof.
  intros [H1 H2 H3 H4] Hd Ha. destruct r; simpl in *.
  - injection Hd as <-. split; try done. by apply bindings_issued_setitem.
  - destruct m as [g [[|f rest]] raw nfa]; simpl in *; [done|].
    split; try done. cbn [stack frames].
    apply Forall_cons in H3 as [Hf Hrest]. apply Forall_cons. split; [|done].
    unfold frame_ok, Frame_get_scopes in *. cbn [curr_scope]. rewrite Hd in Hf.
    destruct sc as [name p tbl]. cbn [Scope_chain parent_scope] in *.
    apply Forall_cons in Hf as [[Hn Hb] Hp]. apply Forall_cons.
    split; [|done]. split; [done|]. by apply (bindings_issued_setitem _ (mkScope name p tbl)).
Qed.

(** In a consistent_upto K memory the scope behind a reference binds issued
    addresses only. *)
Lemma deref_issued m r sc :
  consistent_upto K m -> deref m r = Some sc -> bindings_issued m sc.
Proof.
  intros [H1 H2 H3 H4] Hd. destruct r; simpl in *.
  - by injection Hd as <-.
  - destruct m as [g [[|f rest]] raw nfa]; simpl in *; [done|].
    apply Forall_cons in H3 as [Hf _].
    unfold frame_ok, Frame_get_scopes in Hf. rewrite Hd in Hf.
    destruct sc as [name p tbl]. cbn [Scope_chain] in Hf.
    by apply Forall_cons in Hf as [[_ Hb] _].
Qed.

(** In a consistent_upto K memory a name resolves to an issued address. *)
Lemma get_address_issued key s a s' :
  inv K s -> get_address key s = (Return a, s') -> issued (mem s) a.
Proof.
  intros [H1 H2 H3 H4]. unfold get_address, find_key, Scope_getitem. unfold_monad.
  destruct (curr_frame (stack (mem s))) as [f|] eqn:Ef.
  - destruct (Frame_find_key f key) as [sc|] eqn:E.
    + destruct (_addresses sc !! key) as [b|] eqn:Eb; [|done]. intros [= <- _].
      apply Frame_find_key_Some in E as [Hin _].
      unfold curr_frame in Ef. destruct (frames (stack (mem s))) as [|f' rest]; [done|].
      injection Ef as ->. apply Forall_cons in H3 as [Hf _].
      unfold frame_ok in Hf. rewrite Forall_forall in Hf.
      destruct (Hf sc Hin) as [_ Hb]. by apply (Hb key).
    + destruct (Scope_contains _ key); [|done].
      destruct (_addresses _ !! key) as [b|] eqn:Eb; [|done]. intros [= <- _].
      by apply (H2 key).
  - destruct (_addresses _ !! key) as [b|] eqn:Eb; [|done]. intros [= <- _].
    by apply (H2 key).
Qed.

(** ** The methods keep the memory consistent *)

Lemma hoare_snd {A} (P I : State -> Prop) (c : M A) s :
  hoare P c (fun _ => I) I -> P s -> I (snd (c s)).
Proof. intros H Hs. specialize (H s Hs). by destruct (c s) as [[a|e] s']. Qed.

Lemma malloc_inv block_sz :
  0 < block_sz ->
  hoare (inv K) (malloc block_sz) (fun a s => inv K s /\ issued (mem s) a) (inv K).
Proof.
  intros Hsz s Hs. unfold malloc. unfold_monad. cbn [mem]. split.
  - apply consistent_cursor; [done|lia].
  - destruct Hs as [H1 _ _ _]. unfold issued. cbn [next_free_address]. lia.
Qed.

Lemma set_at_address_inv a v :
  hoare (fun s => inv K s /\ (issued (mem s) a \/ K a)) (set_at_address a v) (fun _ => inv K) (inv K).
Proof. intros s [Hs Ha]. rewrite set_at_address_run. by apply consistent_store. Qed.

Lemma set_at_issued_inv a v :
  hoare (fun s => inv K s /\ issued (mem s) a) (set_at_address a v)
    (fun _ => inv K) (inv K).
Proof.
  eapply hoare_weaken; [apply set_at_address_inv| |done|done].
  intros s [Hs Ha]. split; [done|by left].
Qed.

Lemma ref_setitem_inv r key a :
  hoare (fun s => inv K s /\ issued (mem s) a) (ref_setitem r key a) (fun _ => inv K) (inv K).
Proof.
  intros s [Hs Ha]. unfold ref_setitem. unfold_monad.
  destruct r as [r|]; [|done].
  destruct (deref (mem s) r) as [sc|] eqn:Hd; [|done].
  by apply consistent_assign.
Qed.

Lemma ref_getitem_inv r key :
  hoare (inv K) (ref_getitem r key) (fun a s => inv K s /\ issued (mem s) a) (inv K).
Proof.
  intros s Hs. unfold ref_getitem, Scope_getitem. unfold_monad.
  destruct r as [r|]; [|done].
  destruct (deref (mem s) r) as [sc|] eqn:Hd; [|done].
  destruct (_addresses sc !! key) as [a|] eqn:Ea; [|done].
  split; [done|]. by apply (deref_issued _ _ _ Hs Hd key).
Qed.

Lemma new_Number_inv dc ttype : hoare (inv K) (new_Number dc ttype) (fun _ => inv K) (inv K).
Proof. by intros s Hs. Qed.

Lemma new_Pointer_inv dc ttype : hoare (inv K) (new_Pointer dc ttype) (fun _ => inv K) (inv K).
Proof. by intros s Hs. Qed.

Lemma store_default_inv (mk : M Value) r key :
  hoare (inv K) mk (fun _ => inv K) (inv K) ->
  hoare (inv K) (v ← mk; a ← ref_getitem r key; set_at_address a v) (fun _ => inv K) (inv K).
Proof.
  intros Hmk. eapply hoare_bind; [exact Hmk|]. intros v.
  eapply hoare_bind; [apply ref_getitem_inv|]. intros a.
  apply set_at_issued_inv.
Qed.

Lemma declare_inv sizeof types_py dc var_type var_name :
  0 < sizeof var_type ->
  hoare (inv K) (declare sizeof types_py dc var_type var_name) (fun _ => inv K) (inv K).
Proof.
  intros Hsz. unfold declare.
  eapply hoare_bind; [apply hoare_get_mem|]. intros m.
  eapply hoare_bind.
  { eapply hoare_weaken;
      [apply malloc_inv, Hsz | intros s [H _]; exact H
      | intros a s H; exact H | intros s H; exact H]. }
  intros a. eapply hoare_bind; [apply ref_setitem_inv|]. intros [].
  destruct (str_last var_type) as [c|]; [|by apply hoare_raise].
  destruct (bool_decide (c = "*"%char)).
  { apply store_default_inv, new_Pointer_inv. }
  destruct (bool_decide (var_type ∈ types_py)).
  { apply store_default_inv, new_Number_inv. }
  eapply hoare_bind; [apply ref_getitem_inv|]. intros a'.
  apply set_at_issued_inv.
Qed.

Lemma get_address_inv key :
  hoare (inv K) (get_address key) (fun a s => inv K s /\ issued (mem s) a) (inv K).
Proof.
  intros s Hs. pose proof (get_address_state key s) as Hst.
  pose proof (get_address_issued key s) as Hi.
  destruct (get_address key s) as [[a|e] s']; simpl in Hst; subst s'; [|done].
  split; [done|]. by eapply Hi.
Qed.

Lemma get_at_address_inv dc a :
  hoare (fun s => inv K s /\ (issued (mem s) a \/ K a)) (get_at_address dc a) (fun _ => inv K) (inv K).
Proof.
  intros s [Hs Ha]. destruct (raw_memory (mem s) !! a) as [v|] eqn:E.
  - by rewrite (get_at_address_stored _ _ _ _ E).
  - rewrite (get_at_address_fresh _ _ _ E). by apply consistent_store.
Qed.

Lemma get_at_issued_inv dc a :
  hoare (fun s => inv K s /\ issued (mem s) a) (get_at_address dc a)
    (fun _ => inv K) (inv K).
Proof.
  eapply hoare_weaken; [apply get_at_address_inv| |done|done].
  intros s [Hs Ha]. split; [done|by left].
Qed.

Lemma Memory_setitem_inv key value :
  hoare (inv K) (Memory_setitem key value) (fun _ => inv K) (inv K).
Proof.
  unfold Memory_setitem. eapply hoare_bind; [apply get_address_inv|].
  intros a. apply set_at_issued_inv.
Qed.

Lemma Memory_getitem_inv dc key :
  hoare (inv K) (Memory_getitem dc key) (fun _ => inv K) (inv K).
Proof.
  unfold Memory_getitem. eapply hoare_bind; [apply get_address_inv|].
  intros a. apply get_at_issued_inv.
Qed.

Lemma frame_ok_init m frame_name : frame_ok m (Frame_init frame_name).
Proof.
  unfold frame_ok. cbn. apply Forall_singleton. split.
  - apply Frame_init_name_ok.
  - apply map_Forall_empty.
Qed.

Lemma new_frame_inv frame_name : hoare (inv K) (new_frame frame_name) (fun _ => inv K) (inv K).
Proof.
  intros s [H1 H2 H3 H4]. unfold new_frame. unfold_monad. split; try done.
  cbn [stack Stack_new_frame frames]. apply Forall_cons. split; [|done].
  apply (frame_ok_init (mkMemory _ _ _ _)).
Qed.

Lemma del_frame_inv : hoare (inv K) del_frame (fun _ => inv K) (inv K).
Proof.
  intros s Hs. unfold del_frame, Stack_del_frame. unfold_monad.
  destruct (frames (stack (mem s))) as [|f rest] eqn:Ef; [done|].
  destruct Hs as [H1 H2 H3 H4]. split; try done.
  cbn [stack frames]. rewrite Ef in H3. by apply Forall_cons in H3 as [_ ?].
Qed.

(** A method run on the current frame keeps the memory consistent if the
    frame it leaves is well formed. *)
Lemma on_curr_frame_inv method :
  (forall m f f', frame_ok m f -> method f = Return f' -> frame_ok m f') ->
  hoare (inv K) (on_curr_frame method) (fun _ => inv K) (inv K).
Proof.
  intros Hm s Hs. unfold on_curr_frame. unfold_monad.
  destruct (curr_frame (stack (mem s))) as [f|] eqn:Ef; [|done].
  destruct (method f) as [f'|e] eqn:Emf; [|done].
  destruct Hs as [H1 H2 H3 H4]. split; try done.
  cbn [stack]. unfold curr_frame, set_curr_frame in *.
  destruct (frames (stack (mem s))) as [|f0 rest]; [done|].
  injection Ef as ->. apply Forall_cons in H3 as [Hf Hrest].
  cbn [frames]. apply Forall_cons. split; [|done].
  apply (Hm _ _ _ Hf Emf).
Qed.

Lemma new_scope_inv : hoare (inv K) new_scope (fun _ => inv K) (inv K).
Proof.
  apply on_curr_frame_inv. intros m f f' Hf. unfold Frame_new_scope.
  destruct (curr_scope f) as [sc|] eqn:Esc; [|done].
  destruct (next_scope_name (scope_name sc)) as [name|] eqn:En; [|done].
  intros [= <-]. unfold frame_ok, Frame_get_scopes in *. rewrite Esc in Hf.
  cbn [curr_scope Scope_chain parent_scope]. apply Forall_cons. split; [|done].
  split.
  - by apply next_scope_name_ok in En.
  - apply map_Forall_empty.
Qed.

Lemma del_scope_inv : hoare (inv K) del_scope (fun _ => inv K) (inv K).
Proof.
  apply on_curr_frame_inv. intros m f f' Hf. unfold Frame_del_scope.
  destruct (curr_scope f) as [sc|] eqn:Esc; [|done].
  intros [= <-]. unfold frame_ok, Frame_get_scopes in *. rewrite Esc in Hf.
  cbn [curr_scope]. destruct sc as [name [p|] tbl]; cbn [parent_scope].
  - cbn [Scope_chain parent_scope] in Hf. by apply Forall_cons in Hf as [_ ?].
  - constructor.
Qed.

End Invariant.


(** ** The cursor *)

Lemma keeps_cursor_bind {A B} (c : M A) (k : A -> M B) :
  keeps_cursor c -> (forall a, keeps_cursor (k a)) -> keeps_cursor (c ≫= k).
Proof. intros Hc Hk n. eapply hoare_bind; [apply Hc|]. intros a. apply Hk. Qed.

Lemma keeps_cursor_unchanged {A} (c : M A) :
  (forall s, snd (c s) = s) -> keeps_cursor c.
Proof.
  intros H k s Hs. specialize (H s). destruct (c s) as [[a|e] s']; simpl in H; by subst.
Qed.

Lemma malloc_cursor block_sz k :
  hoare (cursor_is k) (malloc block_sz)
    (fun _ => cursor_is (k + block_sz)) (cursor_is (k + block_sz)).
Proof. intros s Hs. unfold malloc, cursor_is in *. unfold_monad. cbn. lia. Qed.

Lemma set_at_address_cursor a v : keeps_cursor (set_at_address a v).
Proof. intros k s Hs. by rewrite set_at_address_run. Qed.

Lemma ref_setitem_cursor r key a : keeps_cursor (ref_setitem r key a).
Proof.
  intros k s Hs. unfold ref_setitem. unfold_monad.
  destruct r as [r|]; [|done]. destruct (deref (mem s) r); [|done].
  unfold cursor_is in *. cbn [mem]. by rewrite assign_cursor.
Qed.

Lemma ref_getitem_cursor r key : keeps_cursor (ref_getitem r key).
Proof.
  apply keeps_cursor_unchanged. intros s. unfold ref_getitem. unfold_monad.
  destruct r as [r|]; [|done]. by destruct (deref (mem s) r).
Qed.

Lemma new_Number_cursor dc ttype : keeps_cursor (new_Number dc ttype).
Proof. by intros k s Hs. Qed.

Lemma new_Pointer_cursor dc ttype : keeps_cursor (new_Pointer dc ttype).
Proof. by intros k s Hs. Qed.

Lemma get_address_cursor key : keeps_cursor (get_address key).
Proof. apply keeps_cursor_unchanged, get_address_state. Qed.

Lemma get_at_address_cursor dc a : keeps_cursor (get_at_address dc a).
Proof.
  intros k s Hs. destruct (raw_memory (mem s) !! a) as [v|] eqn:E.
  - by rewrite (get_at_address_stored _ _ _ _ E).
  - by rewrite (get_at_address_fresh _ _ _ E).
Qed.

Lemma new_frame_cursor frame_name : keeps_cursor (new_frame frame_name).
Proof. by intros k s Hs. Qed.

Lemma del_frame_cursor : keeps_cursor del_frame.
Proof.
  intros k s Hs. unfold del_frame, Stack_del_frame. unfold_monad.
  by destruct (frames (stack (mem s))).
Qed.

Lemma on_curr_frame_cursor method : keeps_cursor (on_curr_frame method).
Proof.
  intros k s Hs. unfold on_curr_frame. unfold_monad.
  destruct (curr_frame (stack (mem s))); [|done]. by destruct (method _).
Qed.

Lemma declare_cursor sizeof types_py dc var_type var_name k :
  hoare (cursor_is k) (declare sizeof types_py dc var_type var_name)
    (fun _ => cursor_is (k + sizeof var_type)) (cursor_is (k + sizeof var_type)).
Proof.
  unfold declare.
  eapply hoare_bind.
  { eapply hoare_weaken; [apply (hoare_get_mem (cursor_is k))| | |]; [done| |done].
    intros a s [H _]. exact H. }
  intros m. cbn beta. eapply hoare_bind; [apply malloc_cursor|]. intros a.
  eapply hoare_bind; [apply ref_setitem_cursor|]. intros [].
  destruct (str_last var_type) as [c|]; [|by apply hoare_raise].
  destruct (bool_decide (c = "*"%char)).
  { apply keeps_cursor_bind; [apply new_Pointer_cursor|]. intros v.
    apply keeps_cursor_bind; [apply ref_getitem_cursor|]. intros a'.
    apply set_at_address_cursor. }
  destruct (bool_decide (var_type ∈ types_py)).
  { apply keeps_cursor_bind; [apply new_Number_cursor|]. intros v.
    apply keeps_cursor_bind; [apply ref_getitem_cursor|]. intros a'.
    apply set_at_address_cursor. }
  apply keeps_cursor_bind; [apply ref_getitem_cursor|]. intros a'.
  apply set_at_address_cursor.
Qed.

(** ** Runs of operations *)

Section RunProperties.

Variable sizeof : string -> Z.
Variable types_py : gset string.
Variable dc : nat -> Z.
Hypothesis sizeof_pos : forall ttype, 0 < sizeof ttype.

Local Abbreviation exec' := (exec sizeof types_py dc).
Local Abbreviation run_ops' := (run_ops sizeof types_py dc).
Local Abbreviation admissible' := (admissible sizeof types_py dc).
Local Abbreviation allocated' := (allocated sizeof types_py dc).

(** An operation keeps the invariant if the address it is given, when it
    takes one, is issued or let through by [K]. *)
Lemma exec_inv K op s :
  (op_admissible op s \/ forall a, K a) -> inv K s -> inv K (exec' op s).
Proof.
  intros Hadm Hs. destruct op; cbn [exec].
  - eapply hoare_snd; [by apply declare_inv|done].
  - eapply hoare_snd; [apply Memory_getitem_inv|done].
  - eapply hoare_snd; [apply Memory_setitem_inv|done].
  - eapply hoare_snd; [apply get_at_address_inv|].
    split; [done|]. destruct Hadm as [Ha|Hk]; [by left|by right].
  - eapply hoare_snd; [apply set_at_address_inv|].
    split; [done|]. destruct Hadm as [Ha|Hk]; [by left|by right].
  - eapply hoare_snd; [apply new_frame_inv|done].
  - eapply hoare_snd; [apply del_frame_inv|done].
  - eapply hoare_snd; [apply new_scope_inv|done].
  - eapply hoare_snd; [apply del_scope_inv|done].
Qed.

(** Runs that give [read_at] and [write_at] issued addresses keep the
    memory consistent. *)
Lemma run_ops_consistent ops s :
  admissible' ops s -> consistent (mem s) -> consistent (mem (run_ops' ops s)).
Proof.
  revert s. induction ops as [|op ops IH]; intros s; cbn; [done|].
  intros [Hop Hrest] Hs. apply IH; [done|].
  apply (exec_inv (fun _ => False)); [by left|done].
Qed.

(** Every run keeps the scopes consistent. *)
Lemma run_ops_scopes_consistent ops s :
  scopes_consistent (mem s) -> scopes_consistent (mem (run_ops' ops s)).
Proof.
  revert s. induction ops as [|op ops IH]; intros s; cbn; [done|].
  intros Hs. apply IH. apply (exec_inv (fun _ => True)); [by right|done].
Qed.

(** Only [declare] moves the cursor, and it moves it by the size of the
    type, whether it returns or raises. *)
Lemma exec_cursor op s :
  next_free_address (mem (exec' op s)) =
    next_free_address (mem s) +
    match op with OpDeclare var_type _ => sizeof var_type | _ => 0 end.
Proof.
  assert (forall A (c : M A), keeps_cursor c ->
            next_free_address (mem (snd (c s))) = next_free_address (mem s) + 0) as Hk.
  { intros A c Hc. rewrite Z.add_0_r.
    apply (hoare_snd (cursor_is (next_free_address (mem s)))
             (cursor_is (next_free_address (mem s))) c s); [apply Hc|done]. }
  destruct op; cbn [exec].
  - apply (hoare_snd (cursor_is (next_free_address (mem s)))
             (cursor_is (next_free_address (mem s) + sizeof var_type)) _ s);
      [apply declare_cursor|done].
  - apply Hk, keeps_cursor_bind; [apply get_address_cursor|].
    intros a. apply get_at_address_cursor.
  - apply Hk, keeps_cursor_bind; [apply get_address_cursor|].
    intros a. apply set_at_address_cursor.
  - apply Hk, get_at_address_cursor.
  - apply Hk, set_at_address_cursor.
  - apply Hk, new_frame_cursor.
  - apply Hk, del_frame_cursor.
  - apply Hk, on_curr_frame_cursor.
  - apply Hk, on_curr_frame_cursor.
Qed.

Lemma exec_cursor_le op s :
  next_free_address (mem s) <= next_free_address (mem (exec' op s)).
Proof.
  rewrite exec_cursor. destruct op; try lia. pose proof (sizeof_pos var_type). lia.
Qed.

Lemma run_ops_cursor_le ops s :
  next_free_address (mem s) <= next_free_address (mem (run_ops' ops s)).
Proof.
  revert s. induction ops as [|op ops IH]; intros s; cbn; [lia|].
  pose proof (exec_cursor_le op s). specialize (IH (exec' op s)). lia.
Qed.

(** The addresses a run allocates lie between the cursor it starts from
    and the cursor it ends with, in increasing order. *)
Lemma allocated_sorted ops s :
  StronglySorted Z.lt (allocated' ops s) /\
  Forall (fun a => next_free_address (mem s) <= a
                   < next_free_address (mem (run_ops' ops s))) (allocated' ops s).
Proof.
  revert s. induction ops as [|op ops IH]; intros s; cbn [allocated run_ops].
  { split; constructor. }
  destruct (IH (exec' op s)) as [Hsorted Hrange].
  pose proof (exec_cursor op s) as Hc.
  assert (Forall (fun a => next_free_address (mem s) <= a
                   < next_free_address (mem (run_ops' ops (exec' op s))))
            (allocated' ops (exec' op s))) as Hrange'.
  { eapply Forall_impl; [exact Hrange|]. intros a Ha. cbn beta in *.
    pose proof (exec_cursor_le op s). lia. }
  destruct op; try (split; [exact Hsorted|exact Hrange']).
  unfold malloc. unfold_monad. cbn [fst app].
  pose proof (sizeof_pos var_type) as Hsz.
  pose proof (run_ops_cursor_le ops (exec' (OpDeclare var_type var_name) s)) as Hle.
  split.
  - constructor; [done|]. eapply Forall_impl; [exact Hrange|].
    intros a Ha. cbn beta in *. lia.
  - constructor; [lia|done].
Qed.

End RunProperties.

(** ** Allocation *)

(** C5 (monotonic addresses). With sizes that are positive, the addresses
    [malloc] returns to the [declare] calls of any run of operations are
    strictly increasing in the order of the calls, so each is strictly
    greater than every address allocated before it in the run; each is
    also strictly greater than every address issued before the run (it is
    at or above the cursor the run starts from) and is issued when the run
    ends.  No address is handed out twice. *)
Theorem allocated_addresses_increase sizeof types_py dc ops s :
  (forall ttype, 0 < sizeof ttype) ->
  StronglySorted Z.lt (allocated sizeof types_py dc ops s) /\
  NoDup (allocated sizeof types_py dc ops s) /\
  Forall (fun a => (forall b, issued (mem s) b -> b < a) /\
                   next_free_address (mem s) <= a /\
                   a < next_free_address (mem (run_ops sizeof types_py dc ops s)))
         (allocated sizeof types_py dc ops s).
Proof.
  intros Hpos.
  destruct (allocated_sorted sizeof types_py dc Hpos ops s) as [Hs Hr].
  split; [exact Hs|]. split.
  - clear Hr. induction Hs as [|a l Hs IH Ha]; constructor; [|done].
    intros Hin. rewrite Forall_forall in Ha. specialize (Ha a Hin). lia.
  - eapply Forall_impl; [exact Hr|]. intros a Ha. cbn beta in *.
    split; [|lia]. unfold issued. intros b Hb. lia.
Qed.

(** ** The keys of the raw storage *)

(** C9, as stated, fails: [write_at] stores at whatever address it is
    given, so one call with an address below [STARTING_ADDRESS] leaves a
    key of the raw storage that the allocator never issued. *)
Lemma storage_keys_not_always_issued :
  ~ (forall sizeof types_py dc, (forall ttype : string, 0 < sizeof ttype) ->
     forall ops,
       storage_keys_issued (mem (run_ops sizeof types_py dc ops initial_state))).
Proof.
  intros H.
  specialize (H sizeof_example types_py_example content_example).
  specialize (H ltac:(intros; reflexivity) [OpWriteAt 0 PyNone]).
  specialize (H 0 PyNone). cbn in H.
  specialize (H (lookup_insert_eq _ _ _)). unfold issued, STARTING_ADDRESS in H. lia.
Qed.

(** C9 (storage-key invariant, amended). With sizes that are positive,
    after any run of the public operations from a consistent memory in
    which every [read_at] and [write_at] is given an address issued at
    the time of the call, every key of the raw storage is an issued
    address: it lies from [STARTING_ADDRESS] up to, and excluding, the
    cursor. *)
Theorem storage_keys_issued_invariant sizeof types_py dc ops s :
  (forall ttype, 0 < sizeof ttype) ->
  consistent (mem s) ->
  admissible sizeof types_py dc ops s ->
  storage_keys_issued (mem (run_ops sizeof types_py dc ops s)).
Proof.
  intros Hpos Hs Hadm.
  destruct (run_ops_consistent sizeof types_py dc Hpos ops s Hadm Hs) as [_ _ _ H].
  intros a v Ha. by destruct (H a v Ha).
Qed.

(** ** Leaving a block or a call with nothing to leave *)

(** C8, as stated, fails: [del_scope] in the scope a frame started with
    does not signal anything.  It returns normally and leaves the frame
    with no current scope. *)
Lemma leave_block_at_base_not_checked :
  ~ (forall s,
       (at_base_scope (mem s) -> raises del_scope s) /\
       (frames (stack (mem s)) = [] -> raises del_frame s)).
Proof.
  intros H. destruct (H (snd (new_frame "f" initial_state))) as [Hb _].
  destruct Hb as [e He].
  - eexists; eexists. cbn. done.
  - cbn in He. done.
Qed.

(** C8 (paired exits, amended). [leave_call] on an empty call stack fails
    fast: [pop] raises [IndexError] and the state is as before; so do
    [leave_block] and [enter_block] on an empty call stack, with
    [AttributeError].  [leave_block] in the scope the frame started with
    is not checked: it returns normally, the frame is left with no
    current scope, and the next [leave_block] or [enter_block] on that
    frame raises [AttributeError]. *)
Theorem paired_exit_behaviour s :
  (frames (stack (mem s)) = [] ->
     del_frame s = (Raise IndexError, s) /\
     del_scope s = (Raise AttributeError, s) /\
     new_scope s = (Raise AttributeError, s)) /\
  (at_base_scope (mem s) ->
     exists s' f',
       del_scope s = (Return tt, s') /\
       curr_frame (stack (mem s')) = Some f' /\ curr_scope f' = None /\
       del_scope s' = (Raise AttributeError, s') /\
       new_scope s' = (Raise AttributeError, s')).
Proof.
  split.
  - intros He. unfold del_frame, del_scope, new_scope, on_curr_frame,
      Stack_del_frame, curr_frame. unfold_monad. by rewrite He.
  - intros (f & sc & Hf & Hsc & Hp).
    unfold del_scope, new_scope, on_curr_frame, Frame_del_scope, Frame_new_scope.
    unfold_monad. rewrite Hf, Hsc. cbn [mem stack].
    unfold curr_frame, set_curr_frame in *.
    destruct (frames (stack (mem s))) as [|f0 rest]; [done|].
    cbn [frames head]. rewrite Hp. cbn [curr_scope]. eauto 10.
Qed.

(** ** Frames and blocks *)

Lemma new_frame_run frame_name s :
  new_frame frame_name s =
    (Return tt,
     mkState (mkMemory (global_scope (mem s))
                (mkStack (Frame_init frame_name :: frames (stack (mem s))))
                (raw_memory (mem s)) (next_free_address (mem s)))
             (drawn s)).
Proof. done. Qed.

(** C3 (frame isolation). Resolution reads the current frame and the
    global scope only: whatever frames lie below the current one, and
    whatever they bind, the result is the same.  In particular a name
    declared inside a call of A, and resolvable there, is not resolvable
    in a call of B entered afterwards unless the global scope binds it:
    there [resolve_address] raises the [RuntimeError] of [find_key]; in a
    frame just entered, a name resolves exactly as the global scope binds
    it. *)
Theorem frame_isolation sizeof types_py dc frame_a frame_b var_type x s :
  var_type <> "" ->
  _addresses (global_scope (mem s)) !! x = None ->
  (forall g f callers callers' raw raw' nfa nfa' d d' key,
     fst (get_address key (mkState (mkMemory g (mkStack (f :: callers)) raw nfa) d)) =
     fst (get_address key (mkState (mkMemory g (mkStack (f :: callers')) raw' nfa') d'))) /\
  exists s1 s2,
    (new_frame frame_a ;; declare sizeof types_py dc var_type x) s = (Return tt, s1) /\
    get_address x s1 = (Return (next_free_address (mem s)), s1) /\
    new_frame frame_b s1 = (Return tt, s2) /\
    get_address x s2 =
      (Raise (RuntimeError ("Failed to find " ++ x ++ " in the current scope")), s2) /\
    (forall key,
       get_address key s2 =
         (match _addresses (global_scope (mem s)) !! key with
          | Some a => Return a
          | None => Raise (RuntimeError ("Failed to find " ++ key ++ " in the current scope"))
          end, s2)).
Proof.
  intros Hne Hg. split.
  { intros. apply get_address_reads. }
  pose proof (new_frame_run frame_a s) as Ha.
  set (sa := mkState _ _) in Ha.
  assert (active_scope (mem sa) = Some (mkScope (frame_a ++ ".scope_00") None ∅)) as Hact by done.
  destruct (declare_run sizeof types_py dc var_type x sa _ Hne Hact) as [d1 Hd].
  cbn zeta in Hd.
  set (s1 := mkState _ d1) in Hd. exists s1.
  pose proof (new_frame_run frame_b s1) as Hb.
  set (s2 := mkState _ _) in Hb. exists s2.
  assert (global_scope (mem s1) = global_scope (mem s)) as Hgs by done.
  assert (forall key,
            get_address key s2 =
              (match _addresses (global_scope (mem s)) !! key with
               | Some a => Return a
               | None => Raise (RuntimeError ("Failed to find " ++ key ++ " in the current scope"))
               end, s2)) as Hall.
  { intros key. pose proof (get_address_fresh_frame frame_b key s1) as Hf.
    rewrite Hb in Hf. cbn [snd] in Hf. by rewrite Hgs in Hf. }
  split; [by rewrite (bind_Return _ _ _ _ _ Ha)|].
  split.
  { subst s1. eapply get_address_active.
    - rewrite active_scope_scopes. by apply (active_scope_assign _ _ _ Hact).
    - apply Scope_setitem_lookup. }
  split; [done|]. split; [|done].
  specialize (Hall x). by rewrite Hg in Hall.
Qed.

(** The block of the shadowing property, run from a state given by its
    parts: the current frame has a current scope [sc] with a name
    [new_scope] can continue, [x] resolves to [a0] which holds [v0], and
    [a0] is below the cursor. *)
Lemma shadowing_run {T} (result : Value -> Value -> Value -> T)
    sizeof types_py dc var_type x v1 g fn sc rest raw nfa d a0 v0 :
  var_type <> "" ->
  name_ok (scope_name sc) ->
  let s := mkState (mkMemory g (mkStack (mkFrame fn (Some sc) :: rest)) raw nfa) d in
  get_address x s = (Return a0, s) ->
  raw !! a0 = Some v0 ->
  a0 < nfa ->
  exists s',
    (new_scope ;;
     declare sizeof types_py dc var_type x ;;
     r0 ← Memory_getitem dc x ;
     Memory_setitem x v1 ;;
     r1 ← Memory_getitem dc x ;
     del_scope ;;
     r2 ← Memory_getitem dc x ;
     mret (result r0 r1 r2)) s =
    (Return (result (initial_value types_py var_type (dc d)) v1 v0), s').
Proof.
  intros Hne Hname s Ha0 Hv0 Hlt.
  destruct (name_ok_next _ Hname) as [name' Hname'].
  (* new_scope *)
  set (inner := mkScope name' (Some sc) ∅).
  set (s1 := mkState (mkMemory g (mkStack (mkFrame fn (Some inner) :: rest)) raw nfa) d).
  assert (new_scope s = (Return tt, s1)) as H1.
  { unfold new_scope, on_curr_frame, Frame_new_scope. unfold_monad.
    cbn [s mem stack curr_frame frames head curr_scope]. by rewrite Hname'. }
  rewrite (bind_Return _ _ _ _ _ H1).
  (* declare *)
  assert (active_scope (mem s1) = Some inner) as Hact by done.
  destruct (declare_run sizeof types_py dc var_type x s1 inner Hne Hact) as [d2 H2].
  cbn zeta in H2. cbn [s1 mem drawn next_free_address raw_memory] in H2.
  set (bound := Scope_setitem inner x nfa) in *.
  set (v := initial_value types_py var_type (dc d)) in *.
  change (assign _ _ bound)
    with (mkMemory g (mkStack (mkFrame fn (Some bound) :: rest)) raw nfa) in H2.
  cbn [global_scope stack] in H2.
  rewrite (bind_Return _ _ _ _ _ H2).
  (* the inner binding is read *)
  set (st2 := mkStack (mkFrame fn (Some bound) :: rest)).
  assert (forall raw' nfa' d',
            get_address x (mkState (mkMemory g st2 raw' nfa') d') =
              (Return nfa, mkState (mkMemory g st2 raw' nfa') d')) as Hin.
  { intros. eapply get_address_active; [done|]. apply Scope_setitem_lookup. }
  erewrite bind_Return.
  2:{ rewrite (Memory_getitem_run _ _ _ _ (Hin _ _ _)).
      apply get_at_address_stored. apply lookup_insert_eq. }
  (* it is written and read again *)
  erewrite bind_Return.
  2:{ rewrite (Memory_setitem_run _ _ _ _ (Hin _ _ _)). apply set_at_address_run. }
  cbn [mem drawn global_scope stack raw_memory next_free_address].
  erewrite bind_Return.
  2:{ rewrite (Memory_getitem_run _ _ _ _ (Hin _ _ _)).
      apply get_at_address_stored. apply lookup_insert_eq. }
  (* del_scope *)
  erewrite bind_Return.
  2:{ unfold del_scope, on_curr_frame, Frame_del_scope. unfold_monad.
      cbn [st2 mem stack curr_frame frames head curr_scope]. reflexivity. }
  cbn [mem drawn global_scope stack raw_memory next_free_address st2
         set_curr_frame frames frame_name bound inner Scope_setitem parent_scope].
  (* the outer binding is read *)
  set (s4 := mkState _ d2).
  assert (get_address x s4 = (Return a0, s4)) as Hout.
  { apply injective_projections; [|apply get_address_state]. cbn [fst].
    etrans; [apply (get_address_scopes (mem s) _ _ d2 d x)|].
    change (mkState (mem s) d) with s. by rewrite Ha0. }
  erewrite bind_Return.
  2:{ rewrite (Memory_getitem_run _ _ _ _ Hout).
      apply get_at_address_stored. cbn [s4 mem raw_memory].
      rewrite !lookup_insert_ne by lia. exact Hv0. }
  eexists. reflexivity.
Qed.

(** C2 (shadowing). In a memory with consistent scopes (as every run of
    the operations leaves it) where a block can be entered
    and [x] is resolvable (bound in an enclosing block of the current
    frame or in the global scope), let [read("x")] return [v0].  Then,
    after [new_scope] and the declaration of [x] in the inner block,
    [read("x")] returns the value of the inner binding: the initial value
    of the declared type, and after a write the value written; after
    [del_scope], [read("x")] returns [v0], the value of the outer binding,
    again. *)
Theorem shadowing sizeof types_py dc var_type x v1 s :
  var_type <> "" ->
  scopes_consistent (mem s) ->
  (exists f sc, curr_frame (stack (mem s)) = Some f /\ curr_scope f = Some sc) ->
  resolvable (mem s) x ->
  exists v0 n s',
    fst (Memory_getitem dc x s) = Return v0 /\
    (outer ← Memory_getitem dc x ;
     new_scope ;;
     declare sizeof types_py dc var_type x ;;
     r0 ← Memory_getitem dc x ;
     Memory_setitem x v1 ;;
     r1 ← Memory_getitem dc x ;
     del_scope ;;
     r2 ← Memory_getitem dc x ;
     mret (outer, r0, r1, r2)) s =
    (Return (v0, initial_value types_py var_type (dc n), v1, v0), s').
Proof.
  intros Hne Hcons (f & sc & Hf & Hsc) Hres.
  apply get_address_resolvable in Hres as [a0 Ha0].
  pose proof (get_address_issued _ x s a0 s Hcons Ha0) as [_ Hlt].
  assert (name_ok (scope_name sc)) as Hname.
  { destruct Hcons as [_ _ H3 _]. unfold curr_frame in Hf.
    destruct (frames (stack (mem s))) as [|f0 rest]; [done|]. injection Hf as ->.
    apply Forall_cons in H3 as [H3 _]. unfold frame_ok, Frame_get_scopes in H3.
    rewrite Hsc in H3. destruct sc as [nm p tbl]. cbn [Scope_chain] in H3.
    by apply Forall_cons in H3 as [[? _] _]. }
  (* the outer read leaves a state of the same shape, holding v0 at a0 *)
  assert (exists v0 raw' d',
            Memory_getitem dc x s =
              (Return v0, mkState (mkMemory (global_scope (mem s)) (stack (mem s)) raw'
                                     (next_free_address (mem s))) d') /\
            raw' !! a0 = Some v0) as (v0 & raw' & d' & Hread & Hv0).
  { rewrite (Memory_getitem_run _ _ _ _ Ha0).
    destruct (raw_memory (mem s) !! a0) as [v|] eqn:E.
    - exists v, (raw_memory (mem s)), (drawn s). split; [|done].
      rewrite (get_at_address_stored _ _ _ _ E). by destruct s as [[] ?].
    - eexists _, _, _. split; [by apply get_at_address_fresh|].
      apply lookup_insert_eq. }
  destruct s as [[g [frs] raw nfa] d]. cbn [mem global_scope stack raw_memory
    next_free_address drawn frames curr_frame] in *.
  destruct frs as [|[fn cs] rest]; [done|]. cbn [head] in Hf. injection Hf as <-.
  cbn [curr_scope] in Hsc. subst cs.
  assert (get_address x (mkState (mkMemory g (mkStack (mkFrame fn (Some sc) :: rest)) raw' nfa) d')
          = (Return a0, mkState (mkMemory g (mkStack (mkFrame fn (Some sc) :: rest)) raw' nfa) d'))
    as Ha0'.
  { apply injective_projections; [|apply get_address_state]. cbn [fst].
    etrans; [apply (get_address_scopes
               (mkMemory g (mkStack (mkFrame fn (Some sc) :: rest)) raw nfa) raw' nfa d' d x)|].
    by rewrite Ha0. }
  destruct (shadowing_run (fun r0 r1 r2 => (v0, r0, r1, r2))
              sizeof types_py dc var_type x v1 g fn sc rest raw' nfa d' a0 v0
              Hne Hname Ha0' Hv0 Hlt) as [s' Hrun].
  exists v0, d', s'. split; [by rewrite Hread|].
  by rewrite (bind_Return _ _ _ _ _ Hread).
Qed.

(** * The properties at concrete memories *)

(** The scenario of the specification: [x] is declared globally, a call
    of [f] declares and writes a pointer [p] and returns; [x] then reads
    as its original default value, and [p] no longer resolves. *)
Example scenario_global_survives_call :
  fst ((declare sizeof_example types_py_example content_example "int" "x" ;;
        x0 ← Memory_getitem content_example "x" ;
        new_frame "f" ;;
        declare sizeof_example types_py_example content_example "int*" "p" ;;
        Memory_setitem "p" (Pointer "int*" 1000000) ;;
        del_frame ;;
        x1 ← Memory_getitem content_example "x" ;
        mret (x0, x1)) initial_state)
  = Return (Number "int" 0, Number "int" 0)
  /\
  fst ((declare sizeof_example types_py_example content_example "int" "x" ;;
        new_frame "f" ;;
        declare sizeof_example types_py_example content_example "int*" "p" ;;
        del_frame ;;
        get_address "p") initial_state)
  = Raise (KeyError "p").
Proof. split; vm_compute; reflexivity. Qed.

(** A declaration in a frame whose base scope was left raises, after the
    cursor has moved. *)
Example declare_after_leaving_base_scope :
  let r := (new_frame "f" ;; del_scope ;;
            declare sizeof_example types_py_example content_example "int" "x")
             initial_state in
  fst r = Raise TypeError /\ next_free_address (mem (snd r)) = 1000004.
Proof. split; vm_compute; reflexivity. Qed.

Example scope_names :
  next_scope_name "f.scope_00" = Some "f.scope_01" /\
  next_scope_name "f.scope_99" = Some "f.scope_100" /\
  next_scope_name "f.scope_100" = Some "f.scope_101".
Proof. repeat split; vm_compute; reflexivity. Qed.

Example allocated_example :
  allocated sizeof_example types_py_example content_example
    [OpDeclare "int" "x"; OpEnterCall "f"; OpDeclare "char" "c"; OpDeclare "" "bad"]
    initial_state
  = [1000000; 1000004; 1000008].
Proof. vm_compute. reflexivity. Qed.

Lemma sizeof_example_pos ttype : 0 < sizeof_example ttype.
Proof. reflexivity. Qed.

(** A memory with a global [x] and a call of [main] in progress. *)
Definition state_in_main : State :=
  run_ops sizeof_example types_py_example content_example
    [OpDeclare "int" "x"; OpEnterCall "main"] initial_state.

Lemma state_in_main_consistent : scopes_consistent (mem state_in_main).
Proof.
  apply run_ops_scopes_consistent.
  - apply sizeof_example_pos.
  - apply consistent_initial.
Qed.

Lemma state_in_main_resolves_x : resolvable (mem state_in_main) "x".
Proof. right. vm_compute. eauto. Qed.

Lemma write_read_round_trip_witness :
  resolvable (mem state_in_main) "x" /\
  fst (Memory_setitem "x" (Number "int" 42) state_in_main) = Return tt /\
  (Memory_setitem "x" (Number "int" 42) ;; Memory_getitem content_example "x")
    state_in_main =
    (Return (Number "int" 42), snd (Memory_setitem "x" (Number "int" 42) state_in_main)).
Proof.
  split; [exact state_in_main_resolves_x|].
  apply (write_read_round_trip content_example "x" (Number "int" 42) state_in_main).
  exact state_in_main_resolves_x.
Defined.

Lemma write_changes_one_entry_witness :
  resolvable (mem state_in_main) "x" /\
  exists a s',
    get_address "x" state_in_main = (Return a, state_in_main) /\
    Memory_setitem "x" PyNone state_in_main = (Return tt, s') /\
    raw_memory (mem s') = <[a:=PyNone]> (raw_memory (mem state_in_main)) /\
    (forall b, b <> a -> raw_memory (mem s') !! b = raw_memory (mem state_in_main) !! b) /\
    global_scope (mem s') = global_scope (mem state_in_main) /\
    stack (mem s') = stack (mem state_in_main) /\
    next_free_address (mem s') = next_free_address (mem state_in_main) /\
    drawn s' = drawn state_in_main.
Proof.
  split; [exact state_in_main_resolves_x|].
  apply (write_changes_one_entry "x" PyNone state_in_main).
  exact state_in_main_resolves_x.
Defined.

Lemma uninitialized_read_is_stable_witness :
  raw_memory (mem initial_state) !! 1000000 = None /\
  exists v s1,
    v = Number "int" (content_example (drawn initial_state)) /\
    get_at_address content_example 1000000 initial_state = (Return v, s1) /\
    raw_memory (mem s1) !! 1000000 = Some v /\
    get_at_address content_example 1000000 s1 = (Return v, s1).
Proof.
  split; [reflexivity|].
  apply (uninitialized_read_is_stable content_example 1000000 initial_state).
  reflexivity.
Defined.

Lemma unknown_name_is_fatal_witness :
  ~ resolvable (mem state_in_main) "undeclared" /\
  fails_fast (get_address "undeclared") state_in_main /\
  get_address "undeclared" state_in_main =
    (Raise (RuntimeError "Failed to find undeclared in the current scope"),
     state_in_main).
Proof.
  assert (~ resolvable (mem state_in_main) "undeclared") as H.
  { vm_compute. intros [H|[? H]].
    - inversion H as [? ? [? Hx]|? ? Hx]; [discriminate Hx|inversion Hx].
    - discriminate H. }
  split; [exact H|].
  exact (proj1 (unknown_name_is_fatal "undeclared" state_in_main) H).
Defined.

Lemma declare_classifies_witness :
  "int*" <> "" /\
  active_scope (mem initial_state) = Some (global_scope Memory_init) /\
  exists s',
    declare sizeof_example types_py_example content_example "int*" "p" initial_state
      = (Return tt, s') /\
    get_address "p" s' = (Return 1000000, s') /\
    raw_memory (mem s') !! 1000000 = Some (Pointer "int*" 0).
Proof.
  assert ("int*" <> "") as Hne by discriminate.
  assert (active_scope (mem initial_state) = Some (global_scope Memory_init)) as Hact
    by reflexivity.
  split; [exact Hne|]. split; [exact Hact|].
  destruct (declare_classifies sizeof_example types_py_example content_example
              "int*" "p" initial_state _ Hne Hact)
    as (s' & Hrun & _ & _ & _ & _ & _ & Hget & c & Hc & Hraw).
  exists s'. split; [exact Hrun|]. split; [exact Hget|].
  rewrite Hraw. injection Hc as <-. apply lookup_insert_eq.
Defined.

Lemma allocated_addresses_increase_witness :
  (forall ttype, 0 < sizeof_example ttype) /\
  StronglySorted Z.lt
    (allocated sizeof_example types_py_example content_example
       [OpDeclare "int" "x"; OpEnterCall "f"; OpDeclare "char" "c"] initial_state) /\
  NoDup
    (allocated sizeof_example types_py_example content_example
       [OpDeclare "int" "x"; OpEnterCall "f"; OpDeclare "char" "c"] initial_state).
Proof.
  split; [exact sizeof_example_pos|].
  destruct (allocated_addresses_increase sizeof_example types_py_example content_example
              [OpDeclare "int" "x"; OpEnterCall "f"; OpDeclare "char" "c"] initial_state
              sizeof_example_pos) as (Hs & Hn & _).
  split; [exact Hs|exact Hn].
Defined.

Lemma storage_keys_issued_invariant_witness :
  (forall ttype, 0 < sizeof_example ttype) /\
  consistent (mem initial_state) /\
  admissible sizeof_example types_py_example content_example
    [OpDeclare "int" "x"; OpWriteAt 1000000 PyNone; OpReadAt 1000003; OpRead "x"]
    initial_state /\
  storage_keys_issued
    (mem (run_ops sizeof_example types_py_example content_example
            [OpDeclare "int" "x"; OpWriteAt 1000000 PyNone; OpReadAt 1000003; OpRead "x"]
            initial_state)).
Proof.
  assert (admissible sizeof_example types_py_example content_example
            [OpDeclare "int" "x"; OpWriteAt 1000000 PyNone; OpReadAt 1000003; OpRead "x"]
            initial_state) as Hadm.
  { cbn. unfold STARTING_ADDRESS. repeat split; lia. }
  split; [exact sizeof_example_pos|]. split; [exact (consistent_initial _)|].
  split; [exact Hadm|].
  apply (storage_keys_issued_invariant sizeof_example types_py_example content_example
           _ initial_state sizeof_example_pos (consistent_initial _) Hadm).
Defined.

Lemma paired_exit_behaviour_witness :
  frames (stack (mem initial_state)) = [] /\
  del_frame initial_state = (Raise IndexError, initial_state) /\
  at_base_scope (mem state_in_main) /\
  exists s' f',
    del_scope state_in_main = (Return tt, s') /\
    curr_frame (stack (mem s')) = Some f' /\ curr_scope f' = None /\
    del_scope s' = (Raise AttributeError, s') /\
    new_scope s' = (Raise AttributeError, s').
Proof.
  assert (at_base_scope (mem state_in_main)) as Hb.
  { eexists; eexists. cbn. done. }
  split; [reflexivity|].
  split; [exact (proj1 (proj1 (paired_exit_behaviour initial_state) eq_refl))|].
  split; [exact Hb|].
  exact (proj2 (paired_exit_behaviour state_in_main) Hb).
Defined.

Lemma frame_isolation_witness :
  "int" <> "" /\
  _addresses (global_scope (mem initial_state)) !! "x" = None /\
  exists s1 s2,
    (new_frame "A" ;; declare sizeof_example types_py_example content_example "int" "x")
      initial_state = (Return tt, s1) /\
    get_address "x" s1 = (Return 1000000, s1) /\
    new_frame "B" s1 = (Return tt, s2) /\
    get_address "x" s2 =
      (Raise (RuntimeError "Failed to find x in the current scope"), s2).
Proof.
  assert ("int" <> "") as Hne by discriminate.
  assert (_addresses (global_scope (mem initial_state)) !! "x" = None) as Hg
    by reflexivity.
  split; [exact Hne|]. split; [exact Hg|].
  destruct (frame_isolation sizeof_example types_py_example content_example
              "A" "B" "int" "x" initial_state Hne Hg)
    as (_ & s1 & s2 & H1 & H2 & H3 & H4 & _).
  exists s1, s2. repeat split; assumption.
Defined.

Lemma shadowing_witness :
  "int" <> "" /\
  scopes_consistent (mem state_in_main) /\
  resolvable (mem state_in_main) "x" /\
  exists v0 n s',
    fst (Memory_getitem content_example "x" state_in_main) = Return v0 /\
    (outer ← Memory_getitem content_example "x" ;
     new_scope ;;
     declare sizeof_example types_py_example content_example "int" "x" ;;
     r0 ← Memory_getitem content_example "x" ;
     Memory_setitem "x" (Number "int" 7) ;;
     r1 ← Memory_getitem content_example "x" ;
     del_scope ;;
     r2 ← Memory_getitem content_example "x" ;
     mret (outer, r0, r1, r2)) state_in_main =
    (Return (v0, initial_value types_py_example "int" (content_example n),
             Number "int" 7, v0), s').
Proof.
  assert ("int" <> "") as Hne by discriminate.
  split; [exact Hne|]. split; [exact state_in_main_consistent|].
  split; [exact state_in_main_resolves_x|].
  apply (shadowing sizeof_example types_py_example content_example "int" "x"
           (Number "int" 7) state_in_main Hne state_in_main_consistent).
  - eexists; eexists. cbn. done.
  - exact state_in_main_resolves_x.
Defined.

(** The shadowing block, run. *)
Example shadowing_example :
  fst ((outer ← Memory_getitem content_example "x" ;
        new_scope ;;
        declare sizeof_example types_py_example content_example "int*" "x" ;;
        r0 ← Memory_getitem content_example "x" ;
        Memory_setitem "x" (Pointer "int*" 1000000) ;;
        r1 ← Memory_getitem content_example "x" ;
        del_scope ;;
        r2 ← Memory_getitem content_example "x" ;
        mret (outer, r0, r1, r2)) state_in_main)
  = Return (Number "int" 0, Pointer "int*" 1, Pointer "int*" 1000000, Number "int" 0).
Proof. vm_compute. reflexivity. Qed.

(** * Further properties of the operations *)

(** ** Scope tables *)

(** X1. [Scope.__setitem__] then [Scope.__getitem__] on the same key
    returns the address bound, and [__contains__] holds; every other key
    reads and tests as before; the name and the parent of the scope are
    untouched, and binding a key twice keeps the last address only. *)
Theorem Scope_bind_lookup sc key a :
  Scope_getitem (Scope_setitem sc key a) key = Return a /\
  Scope_contains (Scope_setitem sc key a) key = true /\
  (forall key', key' <> key ->
     Scope_getitem (Scope_setitem sc key a) key' = Scope_getitem sc key' /\
     Scope_contains (Scope_setitem sc key a) key' = Scope_contains sc key') /\
  scope_name (Scope_setitem sc key a) = scope_name sc /\
  parent_scope (Scope_setitem sc key a) = parent_scope sc /\
  (forall b, Scope_setitem (Scope_setitem sc key b) key a = Scope_setitem sc key a).
Proof.
  split; [unfold Scope_getitem; by rewrite Scope_setitem_lookup|].
  split; [apply Scope_contains_spec; rewrite Scope_setitem_lookup; eauto|].
  split.
  - intros key' Hne. unfold Scope_getitem, Scope_contains. cbn [Scope_setitem _addresses].
    by rewrite lookup_insert_ne.
  - split; [done|]. split; [done|]. intros b. unfold Scope_setitem.
    cbn [scope_name parent_scope _addresses]. by rewrite insert_insert_eq.
Qed.

(** X2. [Scope.__getitem__] raises [KeyError] with the key exactly when
    [Scope.__contains__] is false, and returns an address exactly when it
    is true. *)
Theorem Scope_getitem_contains sc key :
  (Scope_contains sc key = true <-> exists a, Scope_getitem sc key = Return a) /\
  (Scope_contains sc key = false <-> Scope_getitem sc key = Raise (KeyError key)).
Proof.
  unfold Scope_getitem. split.
  - rewrite Scope_contains_spec. destruct (_addresses sc !! key) as [a|]; split.
    + eauto.
    + eauto.
    + by intros [? ?].
    + by intros [? ?].
  - rewrite Scope_contains_false. by destruct (_addresses sc !! key).
Qed.

(** ** The order of name resolution *)

Lemma first_binding_app scopes scopes' key :
  first_binding (scopes ++ scopes') key =
    match first_binding scopes key with
    | Some a => Some a
    | None => first_binding scopes' key
    end.
Proof.
  induction scopes as [|sc scopes IH]; [done|]. cbn [app first_binding].
  by destruct (_addresses sc !! key).
Qed.

Lemma first_binding_None scopes key :
  Forall (fun sc => _addresses sc !! key = None) scopes ->
  first_binding scopes key = None.
Proof.
  induction 1 as [|sc scopes Hsc _ IH]; [done|]. cbn [first_binding].
  by rewrite Hsc.
Qed.

(** The scope the loop of [Frame.find_key] stops at gives the key the
    address of the first scope of the chain that binds it. *)
Lemma Scope_find_key_first sc key :
  first_binding (Scope_chain sc) key =
    match Scope_find_key sc key with
    | Some sc' => _addresses sc' !! key
    | None => None
    end.
Proof.
  induction sc as [name tbl | name p tbl IH] using Scope_chain_ind;
    cbn [Scope_chain Scope_find_key parent_scope first_binding _addresses].
  - destruct (Scope_contains _ key) eqn:E.
    + apply Scope_contains_spec in E as [a Ha]. cbn [_addresses] in Ha. by rewrite Ha.
    + apply Scope_contains_false in E. cbn [_addresses] in E. by rewrite E.
  - destruct (Scope_contains _ key) eqn:E.
    + apply Scope_contains_spec in E as [a Ha]. cbn [_addresses] in Ha. by rewrite Ha.
    + apply Scope_contains_false in E. cbn [_addresses] in E. by rewrite E.
Qed.

(** X3. [Memory.get_address] returns the address bound by the first
    scope that binds the name, trying the current scope of the current
    frame, then its parents outwards, then the global scope (only the
    global scope on an empty call stack); a binding in the frame hides a
    global one.  When no scope binds the name it raises, and in no case
    does it change the state. *)
Theorem get_address_first_binding key s :
  get_address key s =
    (match first_binding (resolution_order (mem s)) key with
     | Some a => Return a
     | None =>
         Raise (if Stack_is_empty (stack (mem s)) then KeyError key
                else RuntimeError ("Failed to find " ++ key ++ " in the current scope"))
     end, s).
Proof.
  apply injective_projections; [|apply get_address_state]. cbn [fst snd].
  unfold get_address, find_key, resolution_order, Stack_is_empty, Scope_getitem.
  unfold_monad. destruct (curr_frame (stack (mem s))) as [f|].
  - rewrite first_binding_app. unfold Frame_find_key, Frame_get_scopes.
    destruct (curr_scope f) as [sc|].
    + rewrite Scope_find_key_first.
      destruct (Scope_find_key sc key) as [sc'|] eqn:E.
      * apply Scope_find_key_Some in E as [_ [a Ha]]. cbn [fst]. by rewrite Ha.
      * cbn [first_binding]. destruct (Scope_contains _ key) eqn:Eg.
        -- apply Scope_contains_spec in Eg as [a Ha]. cbn [fst]. by rewrite Ha.
        -- apply Scope_contains_false in Eg. cbn [fst]. by rewrite Eg.
    + cbn [first_binding]. destruct (Scope_contains _ key) eqn:Eg.
      * apply Scope_contains_spec in Eg as [a Ha]. cbn [fst]. by rewrite Ha.
      * apply Scope_contains_false in Eg. cbn [fst]. by rewrite Eg.
  - cbn [first_binding fst]. by destruct (_addresses _ !! key).
Qed.

(** ** The allocator *)

(** X4. [Memory.malloc] lays blocks end to end and checks nothing: called
    once per size of a list, it returns where each block begins when the
    blocks are put one after the other from the cursor, moves the cursor
    by the sum of the sizes, never raises, and changes nothing else.  A
    size of zero makes the next call return the same address again. *)
Theorem malloc_all_contiguous sizes s :
  malloc_all sizes s =
    (Return (block_starts (next_free_address (mem s)) sizes),
     mkState (mkMemory (global_scope (mem s)) (stack (mem s)) (raw_memory (mem s))
                (next_free_address (mem s) + sum_sizes sizes))
             (drawn s)) /\
  (malloc 0 ;; malloc 0) s = (Return (next_free_address (mem s)), snd (malloc 0 s)).
Proof.
  split.
  - revert s. induction sizes as [|sz sizes IH]; intros s.
    + cbn [malloc_all block_starts sum_sizes foldr]. rewrite Z.add_0_r.
      by destruct s as [[] ?].
    + cbn [malloc_all block_starts sum_sizes foldr].
      unfold malloc at 1. unfold_monad. cbn [mem drawn].
      rewrite IH. cbn [mem next_free_address global_scope stack raw_memory drawn].
      fold (sum_sizes sizes). by rewrite <- Z.add_assoc.
  - unfold malloc. unfold_monad. cbn [mem next_free_address snd]. by rewrite !Z.add_0_r.
Qed.

(** X5. The cursor after a run of operations is the cursor before plus the
    sizes of the types of all the [declare] calls of the run, whether they
    returned or raised; no other operation moves it, and leaving a block
    or a call gives nothing back. *)
Theorem cursor_after_run sizeof types_py dc ops s :
  next_free_address (mem (run_ops sizeof types_py dc ops s)) =
    next_free_address (mem s) + sum_sizes (declared_size sizeof <$> ops).
Proof.
  revert s. induction ops as [|op ops IH]; intros s.
  - cbn. lia.
  - cbn [run_ops fmap list_fmap sum_sizes foldr]. rewrite IH, exec_cursor.
    unfold sum_sizes, declared_size. destruct op; lia.
Qed.

(** ** Declarations that raise *)

(** On an empty call stack there is always an active scope; there is none
    exactly when the current frame has lost its current scope. *)
Lemma active_scope_None m :
  active_scope m = None <->
  exists f, curr_frame (stack m) = Some f /\ curr_scope f = None.
Proof.
  unfold active_scope, active_ref, Stack_is_empty, deref.
  destruct (curr_frame (stack m)) as [f|]; split.
  - intros H. by exists f.
  - by intros (f' & [= <-] & H).
  - done.
  - by intros (f' & ? & _).
Qed.

Lemma declare_no_scope sizeof types_py dc var_type var_name s :
  active_scope (mem s) = None ->
  declare sizeof types_py dc var_type var_name s =
    (Raise TypeError,
     mkState (mkMemory (global_scope (mem s)) (stack (mem s)) (raw_memory (mem s))
                (next_free_address (mem s) + sizeof var_type))
             (drawn s)).
Proof.
  unfold active_scope, active_ref. intros Hact.
  unfold declare, malloc, ref_setitem. unfold_monad. cbn [mem drawn].
  destruct (Stack_is_empty (stack (mem s))); [done|]. by rewrite Hact.
Qed.

Lemma declare_empty_type sizeof types_py dc var_name s sc :
  active_scope (mem s) = Some sc ->
  let m' := assign (mem s) (active_ref (mem s))
              (Scope_setitem sc var_name (next_free_address (mem s))) in
  declare sizeof types_py dc "" var_name s =
    (Raise IndexError,
     mkState (mkMemory (global_scope m') (stack m') (raw_memory (mem s))
                (next_free_address (mem s) + sizeof ""))
             (drawn s)).
Proof.
  intros Hact. cbn zeta. unfold active_scope, active_ref in *.
  destruct s as [m d]. cbn [mem drawn] in *.
  unfold declare, malloc, ref_setitem. unfold_monad. cbn [mem drawn].
  destruct (Stack_is_empty (stack m)) eqn:Hemp.
  - simpl in Hact. by injection Hact as <-.
  - rewrite Hact. cbn [mem drawn].
    rewrite (deref_cursor _ _ _ (raw_memory m) _ (next_free_address m)).
    destruct m as [g st raw nfa]. cbn [global_scope stack raw_memory next_free_address] in *.
    rewrite Hact. cbn [mem drawn str_last String.length String.get].
    simpl in Hact. unfold Stack_is_empty in Hemp.
    by destruct st as [[|f rest]].
Qed.

(** X6. [declare] with the empty string as type name raises [IndexError]
    half way: the cursor has moved by the size of the type and the name
    is bound to the new address in the active scope, but nothing is
    stored there.  The name then resolves, and reading it produces a
    default [Number] of type [int] on the spot. *)
Theorem declare_empty_type_name sizeof types_py dc var_name s sc :
  active_scope (mem s) = Some sc ->
  raw_memory (mem s) !! next_free_address (mem s) = None ->
  exists s',
    declare sizeof types_py dc "" var_name s = (Raise IndexError, s') /\
    next_free_address (mem s') = next_free_address (mem s) + sizeof "" /\
    raw_memory (mem s') = raw_memory (mem s) /\
    active_scope (mem s') =
      Some (Scope_setitem sc var_name (next_free_address (mem s))) /\
    get_address var_name s' = (Return (next_free_address (mem s)), s') /\
    fst (Memory_getitem dc var_name s') = Return (Number "int" (dc (drawn s))).
Proof.
  intros Hact Hraw.
  pose proof (declare_empty_type sizeof types_py dc var_name s sc Hact) as Hrun.
  cbn zeta in Hrun. set (m1 := mkMemory _ _ _ _) in Hrun.
  exists (mkState m1 (drawn s)). split; [exact Hrun|].
  assert (active_scope m1
          = Some (Scope_setitem sc var_name (next_free_address (mem s)))) as Hact'.
  { subst m1. rewrite active_scope_scopes. by apply (active_scope_assign _ sc). }
  assert (get_address var_name (mkState m1 (drawn s))
          = (Return (next_free_address (mem s)), mkState m1 (drawn s))) as Hget.
  { eapply get_address_active; [exact Hact'|]. apply Scope_setitem_lookup. }
  do 2 (split; [done|]). split; [exact Hact'|]. split; [exact Hget|].
  rewrite (Memory_getitem_run _ _ _ _ Hget).
  by rewrite get_at_address_fresh.
Qed.

(** X7. [declare] in a frame that has lost its current scope (its base
    scope was left) raises [TypeError], but only after [malloc]: the
    cursor has moved by the size of the type, and nothing else has
    changed.  The block is lost to every later allocation. *)
Theorem declare_without_scope sizeof types_py dc var_type var_name s f :
  curr_frame (stack (mem s)) = Some f ->
  curr_scope f = None ->
  exists s',
    declare sizeof types_py dc var_type var_name s = (Raise TypeError, s') /\
    next_free_address (mem s') = next_free_address (mem s) + sizeof var_type /\
    global_scope (mem s') = global_scope (mem s) /\
    stack (mem s') = stack (mem s) /\
    raw_memory (mem s') = raw_memory (mem s) /\
    drawn s' = drawn s.
Proof.
  intros Hf Hsc. eexists.
  split; [apply declare_no_scope, active_scope_None; eauto|done].
Qed.

(** ** Declarations that return *)

(** X8. Declaring a name again in the same scope is no error: the name is
    bound anew, to a second address, the entry stored for the first
    address stays in the raw storage though no name leads to it, and the
    name reads as the initial value of the second type. *)
Theorem redeclare_rebinds sizeof types_py dc type1 type2 var_name s sc :
  type1 <> "" -> type2 <> "" ->
  sizeof type1 <> 0 ->
  active_scope (mem s) = Some sc ->
  let a1 := next_free_address (mem s) in
  let a2 := next_free_address (mem s) + sizeof type1 in
  exists s2 n1 n2,
    (declare sizeof types_py dc type1 var_name ;;
     declare sizeof types_py dc type2 var_name) s = (Return tt, s2) /\
    get_address var_name s2 = (Return a2, s2) /\
    raw_memory (mem s2) !! a1 = Some (initial_value types_py type1 (dc n1)) /\
    raw_memory (mem s2) !! a2 = Some (initial_value types_py type2 (dc n2)) /\
    fst (Memory_getitem dc var_name s2) = Return (initial_value types_py type2 (dc n2)) /\
    active_scope (mem s2) = Some (Scope_setitem sc var_name a2).
Proof.
  intros Hne1 Hne2 Hsz Hact a1 a2.
  destruct (declare_run sizeof types_py dc type1 var_name s sc Hne1 Hact) as [d1 H1].
  cbn zeta in H1. set (s1 := mkState _ d1) in H1.
  assert (active_scope (mem s1) = Some (Scope_setitem sc var_name a1)) as Hact1.
  { subst s1. cbn [mem]. rewrite active_scope_scopes. by apply (active_scope_assign _ sc). }
  destruct (declare_run sizeof types_py dc type2 var_name s1 _ Hne2 Hact1) as [d2 H2].
  cbn zeta in H2. set (s2 := mkState _ d2) in H2.
  exists s2, (drawn s), d1. split; [by rewrite (bind_Return _ _ _ _ _ H1)|].
  assert (active_scope (mem s2)
          = Some (Scope_setitem (Scope_setitem sc var_name a1) var_name a2)) as Hact2.
  { subst s2. cbn [mem]. rewrite active_scope_scopes.
    by apply (active_scope_assign _ (Scope_setitem sc var_name a1)). }
  assert (get_address var_name s2 = (Return a2, s2)) as Hget.
  { subst s2. eapply get_address_active; [exact Hact2|]. apply Scope_setitem_lookup. }
  assert (raw_memory (mem s2) !! a2 = Some (initial_value types_py type2 (dc d1))) as Hr2.
  { subst s2. cbn [mem raw_memory]. apply lookup_insert_eq. }
  split; [exact Hget|]. split.
  { subst s2 s1. cbn [mem raw_memory next_free_address]. fold a1.
    rewrite lookup_insert_ne by (subst a1 a2; lia). apply lookup_insert_eq. }
  split; [exact Hr2|]. split.
  { rewrite (Memory_getitem_run _ _ _ _ Hget).
    by rewrite (get_at_address_stored _ _ _ _ Hr2). }
  rewrite Hact2. f_equal. unfold Scope_setitem. cbn [scope_name parent_scope _addresses].
  by rewrite insert_insert_eq.
Qed.

(** X9. Reading a name right after its declaration returns the initial
    value of its type, also when that is the placeholder [None], and
    leaves the state as the declaration left it: no default value is
    produced for a stored [None]. *)
Theorem declare_then_read sizeof types_py dc var_type var_name s sc :
  var_type <> "" ->
  active_scope (mem s) = Some sc ->
  (declare sizeof types_py dc var_type var_name ;; Memory_getitem dc var_name) s =
    (Return (initial_value types_py var_type (dc (drawn s))),
     snd (declare sizeof types_py dc var_type var_name s)).
Proof.
  intros Hne Hact.
  destruct (declare_run sizeof types_py dc var_type var_name s sc Hne Hact) as [d1 H1].
  cbn zeta in H1. rewrite (bind_Return _ _ _ _ _ H1), H1. cbn [snd].
  erewrite Memory_getitem_run.
  - apply get_at_address_stored. cbn [mem raw_memory]. apply lookup_insert_eq.
  - eapply get_address_active; [|apply Scope_setitem_lookup].
    cbn [mem]. rewrite active_scope_scopes. by apply (active_scope_assign _ sc).
Qed.

(** ** What an operation leaves behind *)

Lemma exec_perform sizeof types_py dc op s :
  exec sizeof types_py dc op s = snd (perform sizeof types_py dc op s).
Proof.
  destruct op; cbn [exec perform]; try done.
  - unfold_monad. by destruct (Memory_getitem dc var_name s) as [[v|e] s'].
  - unfold_monad. by destruct (get_at_address dc address s) as [[v|e] s'].
Qed.

Lemma get_at_address_returns dc a s :
  exists v s', get_at_address dc a s = (Return v, s').
Proof.
  destruct (raw_memory (mem s) !! a) as [v|] eqn:E.
  - rewrite (get_at_address_stored _ _ _ _ E). eauto.
  - rewrite (get_at_address_fresh _ _ _ E). eauto.
Qed.

Lemma get_address_cases key s :
  (exists a, get_address key s = (Return a, s)) \/
  (exists e, get_address key s = (Raise e, s)).
Proof.
  pose proof (get_address_state key s) as H.
  destruct (get_address key s) as [[a|e] s']; cbn [snd] in H; subst s'; eauto.
Qed.

Lemma on_curr_frame_cases method s :
  (exists e, on_curr_frame method s = (Raise e, s)) \/
  (exists f f' rest,
     frames (stack (mem s)) = f :: rest /\ method f = Return f' /\
     on_curr_frame method s =
       (Return tt,
        mkState (mkMemory (global_scope (mem s)) (mkStack (f' :: rest))
                   (raw_memory (mem s)) (next_free_address (mem s)))
                (drawn s))).
Proof.
  unfold on_curr_frame, curr_frame, set_curr_frame. unfold_monad.
  destruct (frames (stack (mem s))) as [|f rest] eqn:Ef; cbn [head]; [eauto|].
  destruct (method f) as [f'|e] eqn:Em; [|eauto].
  right. by exists f, f', rest.
Qed.

(** X10. Every operation but [declare] is all or nothing: when it raises,
    the state is exactly as before the call.  And [read_at], [write_at]
    and entering a call never raise, whatever the address or the name. *)
Theorem raising_leaves_state sizeof types_py dc op s :
  (is_declare op = false ->
   forall e s', perform sizeof types_py dc op s = (Raise e, s') -> s' = s) /\
  match op with
  | OpReadAt _ | OpWriteAt _ _ | OpEnterCall _ =>
      fst (perform sizeof types_py dc op s) = Return tt
  | _ => True
  end.
Proof.
  split.
  - intros Hop e s'. destruct op; cbn [perform]; try done.
    + unfold Memory_getitem. unfold_monad.
      destruct (get_address_cases var_name s) as [[a Ha]|[e' He]].
      * rewrite Ha. destruct (get_at_address_returns dc a s) as (v & s1 & Hv).
        by rewrite Hv.
      * rewrite He. by intros [= _ <-].
    + unfold Memory_setitem. unfold_monad.
      destruct (get_address_cases var_name s) as [[a Ha]|[e' He]].
      * by rewrite Ha.
      * rewrite He. by intros [= _ <-].
    + unfold_monad. destruct (get_at_address_returns dc address s) as (v & s1 & Hv).
      by rewrite Hv.
    + unfold del_frame, Stack_del_frame. unfold_monad.
      destruct (frames (stack (mem s))); [|done]. by intros [= _ <-].
    + destruct (on_curr_frame_cases Frame_new_scope s) as [[e' He]|(f & f' & rest & _ & _ & Hr)].
      * unfold new_scope. rewrite He. by intros [= _ <-].
      * unfold new_scope. by rewrite Hr.
    + destruct (on_curr_frame_cases Frame_del_scope s) as [[e' He]|(f & f' & rest & _ & _ & Hr)].
      * unfold del_scope. rewrite He. by intros [= _ <-].
      * unfold del_scope. by rewrite Hr.
  - destruct op; try done.
    cbn [perform]. unfold_monad.
    destruct (get_at_address_returns dc address s) as (v & s1 & Hv).
    by rewrite Hv.
Qed.

(** The states [declare] can leave: the cursor has always moved by the
    size of the type; the scopes are as before or have the name bound in
    the active scope; the raw storage is as before or has one entry set,
    at the address allocated. *)
Lemma declare_state sizeof types_py dc var_type var_name s :
  exists g' st' raw' d',
    snd (declare sizeof types_py dc var_type var_name s) =
      mkState (mkMemory g' st' raw'
                 (next_free_address (mem s) + sizeof var_type)) d' /\
    (raw' = raw_memory (mem s) \/
     exists v, raw' = <[next_free_address (mem s) := v]> (raw_memory (mem s))) /\
    ((g' = global_scope (mem s) /\ st' = stack (mem s)) \/
     exists sc sc',
       active_scope (mem s) = Some sc /\
       g' = global_scope (assign (mem s) (active_ref (mem s)) sc') /\
       st' = stack (assign (mem s) (active_ref (mem s)) sc') /\
       parent_scope sc' = parent_scope sc /\ scope_name sc' = scope_name sc).
Proof.
  destruct (active_scope (mem s)) as [sc|] eqn:Hact.
  - destruct (decide (var_type = "")) as [->|Hne].
    + rewrite (declare_empty_type _ _ _ _ _ _ Hact). cbn [snd].
      eexists _, _, _, _. split; [reflexivity|]. split; [by left|].
      right. eexists _, _. by repeat split.
    + destruct (declare_run sizeof types_py dc var_type var_name s sc Hne Hact) as [d' Hr].
      cbn zeta in Hr. rewrite Hr. cbn [snd].
      eexists _, _, _, _. split; [reflexivity|]. split; [right; eauto|].
      right. eexists _, _. by repeat split.
  - rewrite (declare_no_scope _ _ _ _ _ _ Hact). cbn [snd].
    eexists _, _, _, _. split; [reflexivity|]. split; [by left|]. by left.
Qed.

(** An operation leaves every stored entry in place; only a write or a
    declaration can change its value. *)
Lemma exec_raw sizeof types_py dc op s a v :
  raw_memory (mem s) !! a = Some v ->
  raw_memory (mem (exec sizeof types_py dc op s)) !! a = Some v \/
  (exists v', raw_memory (mem (exec sizeof types_py dc op s)) !! a = Some v' /\
              match op with
              | OpDeclare _ _ => a = next_free_address (mem s)
              | OpWrite _ _ | OpWriteAt _ _ => True
              | _ => False
              end).
Proof.
  intros Hv. destruct op; cbn [exec].
  - destruct (declare_state sizeof types_py dc var_type var_name s)
      as (g' & st' & raw' & d' & -> & [->|[v' ->]] & _); cbn [mem raw_memory].
    + by left.
    + destruct (decide (a = next_free_address (mem s))) as [->|Hne].
      * right. exists v'. split; [apply lookup_insert_eq|done].
      * left. by rewrite lookup_insert_ne.
  - unfold Memory_getitem. destruct (get_address_cases var_name s) as [[b Hb]|[e He]].
    + rewrite (bind_Return _ _ _ _ _ Hb).
      destruct (raw_memory (mem s) !! b) as [w|] eqn:E.
      * rewrite (get_at_address_stored _ _ _ _ E). by left.
      * rewrite (get_at_address_fresh _ _ _ E). cbn [snd mem raw_memory]. left.
        rewrite lookup_insert_ne; [done|]. intros ->. congruence.
    + rewrite (bind_Raise _ _ _ _ _ He). by left.
  - unfold Memory_setitem. destruct (get_address_cases var_name s) as [[b Hb]|[e He]].
    + rewrite (bind_Return _ _ _ _ _ Hb), set_at_address_run. cbn [snd mem raw_memory].
      destruct (decide (a = b)) as [->|Hne].
      * right. exists value. split; [apply lookup_insert_eq|done].
      * left. by rewrite lookup_insert_ne.
    + rewrite (bind_Raise _ _ _ _ _ He). by left.
  - destruct (raw_memory (mem s) !! address) as [w|] eqn:E.
    + rewrite (get_at_address_stored _ _ _ _ E). by left.
    + rewrite (get_at_address_fresh _ _ _ E). cbn [snd mem raw_memory]. left.
      rewrite lookup_insert_ne; [done|]. intros ->. congruence.
  - rewrite set_at_address_run. cbn [snd mem raw_memory].
    destruct (decide (a = address)) as [->|Hne].
    + right. exists value. split; [apply lookup_insert_eq|done].
    + left. by rewrite lookup_insert_ne.
  - by left.
  - left. unfold del_frame, Stack_del_frame. unfold_monad.
    by destruct (frames (stack (mem s))).
  - left. unfold new_scope.
    by destruct (on_curr_frame_cases Frame_new_scope s)
      as [[e ->]|(f & f' & rest & _ & _ & ->)].
  - left. unfold del_scope.
    by destruct (on_curr_frame_cases Frame_del_scope s)
      as [[e ->]|(f & f' & rest & _ & _ & ->)].
Qed.

(** X11. Nothing is ever removed from the raw storage: an address that
    holds a value holds one after any run of operations, also after the
    block or the call that declared it was left.  Reads, [read_at] and
    the scope and frame operations do not change a stored value either. *)
Theorem storage_never_shrinks sizeof types_py dc ops s a :
  is_Some (raw_memory (mem s) !! a) ->
  is_Some (raw_memory (mem (run_ops sizeof types_py dc ops s)) !! a) /\
  (forallb (fun op => match op with
                      | OpDeclare _ _ | OpWrite _ _ | OpWriteAt _ _ => false
                      | _ => true
                      end) ops = true ->
   raw_memory (mem (run_ops sizeof types_py dc ops s)) !! a = raw_memory (mem s) !! a).
Proof.
  revert s. induction ops as [|op ops IH]; intros s [v Hv]; cbn [run_ops forallb].
  { split; [eauto|done]. }
  destruct (exec_raw sizeof types_py dc op s a v Hv) as [H|(v' & H & Hop)].
  - destruct (IH (exec sizeof types_py dc op s)) as [IH1 IH2]; [eauto|].
    split; [done|]. rewrite andb_true_iff. intros [_ Hall].
    by rewrite IH2, H, Hv.
  - destruct (IH (exec sizeof types_py dc op s)) as [IH1 _]; [eauto|].
    split; [done|]. by destruct op.
Qed.

(** ** Names and addresses *)

(** X12. Access by name is access at the resolved address: for a
    resolvable name, reading and writing by name are [read_at] and
    [write_at] at its address, so a value written through the address is
    what the name reads, and a value written through the name is what the
    address reads. *)
Theorem name_access_is_address_access dc key value s :
  resolvable (mem s) key ->
  exists a,
    get_address key s = (Return a, s) /\
    Memory_getitem dc key s = get_at_address dc a s /\
    Memory_setitem key value s = set_at_address a value s /\
    (set_at_address a value ;; Memory_getitem dc key) s =
      (Return value, snd (set_at_address a value s)) /\
    (Memory_setitem key value ;; get_at_address dc a) s =
      (Return value, snd (set_at_address a value s)).
Proof.
  intros Hres. apply get_address_resolvable in Hres as [a Ha]. exists a.
  split; [done|]. split; [by apply Memory_getitem_run|].
  split; [by apply Memory_setitem_run|].
  pose proof (get_address_after_store key a a value s Ha) as Ha'.
  rewrite set_at_address_run in *. cbn [snd] in *. split.
  - erewrite bind_Return by apply set_at_address_run.
    rewrite (Memory_getitem_run _ _ _ _ Ha').
    apply get_at_address_stored. apply lookup_insert_eq.
  - erewrite bind_Return.
    2:{ rewrite (Memory_setitem_run _ _ _ _ Ha). apply set_at_address_run. }
    apply get_at_address_stored. apply lookup_insert_eq.
Qed.

(** ** Calls *)

Lemma assign_current m f rest sc' :
  frames (stack m) = f :: rest ->
  global_scope (assign m (active_ref m) sc') = global_scope m /\
  frames (stack (assign m (active_ref m) sc')) =
    mkFrame (frame_name f) (Some sc') :: rest.
Proof.
  destruct m as [g [frs] raw nfa]. cbn [stack frames]. intros ->.
  by unfold active_ref, Stack_is_empty, assign, curr_frame, set_curr_frame.
Qed.

(** An operation that neither enters nor leaves a call changes the
    current frame at most: the frames below and the global scope stay. *)
Lemma exec_below sizeof types_py dc op s f rest :
  is_call_op op = false ->
  frames (stack (mem s)) = f :: rest ->
  global_scope (mem (exec sizeof types_py dc op s)) = global_scope (mem s) /\
  exists f', frames (stack (mem (exec sizeof types_py dc op s))) = f' :: rest.
Proof.
  intros Hop Hf. destruct op; cbn [exec]; try done.
  - destruct (declare_state sizeof types_py dc var_type var_name s)
      as (g' & st' & raw' & d' & -> & _ & [[-> ->]|(sc & sc' & _ & -> & -> & _)]);
      cbn [mem global_scope stack].
    + eauto.
    + destruct (assign_current (mem s) f rest sc' Hf) as [-> ->]. eauto.
  - unfold Memory_getitem. destruct (get_address_cases var_name s) as [[b Hb]|[e He]].
    + rewrite (bind_Return _ _ _ _ _ Hb).
      destruct (raw_memory (mem s) !! b) as [w|] eqn:E.
      * rewrite (get_at_address_stored _ _ _ _ E). eauto.
      * rewrite (get_at_address_fresh _ _ _ E). cbn [snd mem global_scope stack]. eauto.
    + rewrite (bind_Raise _ _ _ _ _ He). eauto.
  - unfold Memory_setitem. destruct (get_address_cases var_name s) as [[b Hb]|[e He]].
    + rewrite (bind_Return _ _ _ _ _ Hb), set_at_address_run. cbn [snd mem global_scope stack].
      eauto.
    + rewrite (bind_Raise _ _ _ _ _ He). eauto.
  - destruct (raw_memory (mem s) !! address) as [w|] eqn:E.
    + rewrite (get_at_address_stored _ _ _ _ E). eauto.
    + rewrite (get_at_address_fresh _ _ _ E). cbn [snd mem global_scope stack]. eauto.
  - rewrite set_at_address_run. cbn [snd mem global_scope stack]. eauto.
  - unfold new_scope.
    destruct (on_curr_frame_cases Frame_new_scope s)
      as [[e ->]|(f0 & f' & rest0 & Hf0 & _ & ->)]; cbn [snd mem global_scope stack frames].
    + eauto.
    + rewrite Hf in Hf0. injection Hf0 as <- <-. eauto.
  - unfold del_scope.
    destruct (on_curr_frame_cases Frame_del_scope s)
      as [[e ->]|(f0 & f' & rest0 & Hf0 & _ & ->)]; cbn [snd mem global_scope stack frames].
    + eauto.
    + rewrite Hf in Hf0. injection Hf0 as <- <-. eauto.
Qed.

(** Operations with balanced calls, run with [depth] calls entered above
    the frames [rest], end one frame above [rest]. *)
Lemma run_balanced sizeof types_py dc ops depth s above rest :
  calls_balanced depth ops = true ->
  frames (stack (mem s)) = (above ++ rest)%list ->
  length above = S depth ->
  global_scope (mem (run_ops sizeof types_py dc ops s)) = global_scope (mem s) /\
  exists f', frames (stack (mem (run_ops sizeof types_py dc ops s))) = f' :: rest.
Proof.
  revert depth s above. induction ops as [|op ops IH]; intros depth s above Hbal Hf Hlen.
  - cbn [calls_balanced] in Hbal. apply Nat.eqb_eq in Hbal. subst depth.
    destruct above as [|f [|? ?]]; try done. cbn [run_ops]. eauto.
  - cbn [run_ops].
    destruct (is_call_op op) eqn:Hop.
    + destruct op as [? ?|?|? ?|?|? ?|fname| | |]; try done; cbn [calls_balanced] in Hbal.
      * (* a call is entered *)
        destruct (IH (S depth) (exec sizeof types_py dc (OpEnterCall fname) s)
                    (Frame_init fname :: above) Hbal) as [Hg Hfr].
        { cbn [exec]. rewrite new_frame_run. cbn [snd mem stack frames]. by rewrite Hf. }
        { cbn [length]. by rewrite Hlen. }
        split; [|done]. by rewrite Hg.
      * (* a call is left *)
        destruct depth as [|depth]; [done|].
        destruct above as [|f above]; [done|]. cbn [length] in Hlen.
        assert (exec sizeof types_py dc OpLeaveCall s =
                mkState (mkMemory (global_scope (mem s)) (mkStack (above ++ rest)%list)
                           (raw_memory (mem s)) (next_free_address (mem s))) (drawn s)) as He.
        { cbn [exec]. unfold del_frame, Stack_del_frame. unfold_monad. by rewrite Hf. }
        destruct (IH depth (exec sizeof types_py dc OpLeaveCall s) above Hbal) as [Hg Hfr].
        { by rewrite He. }
        { lia. }
        split; [|done]. by rewrite Hg, He.
    + assert (calls_balanced depth ops = true) as Hbal' by (by destruct op).
      destruct above as [|f above]; [done|].
      destruct (exec_below sizeof types_py dc op s f (above ++ rest)%list Hop Hf) as [Hg [f' Hf']].
      destruct (IH depth (exec sizeof types_py dc op s) (f' :: above) Hbal' Hf' Hlen)
        as [Hg' Hfr].
      split; [|done]. by rewrite Hg'.
Qed.

(** X13. A call gives back the scopes it found.  Enter a call, run any
    operations in which every further call entered is also left
    (declarations, blocks, reads, writes, nested and recursive calls,
    whether they return or raise), and leave the call: the call stack and
    the global scope are exactly as before, so every name resolves as it
    did before the call and the names declared in it are gone. *)
Theorem call_restores_scopes sizeof types_py dc frame_name body s :
  calls_balanced 0 body = true ->
  let s' := run_ops sizeof types_py dc (OpEnterCall frame_name :: body ++ [OpLeaveCall])%list s in
  stack (mem s') = stack (mem s) /\
  global_scope (mem s') = global_scope (mem s) /\
  forall key, fst (get_address key s') = fst (get_address key s).
Proof.
  intros Hbal s'.
  assert (forall ops ops' st, run_ops sizeof types_py dc (ops ++ ops')%list st
            = run_ops sizeof types_py dc ops' (run_ops sizeof types_py dc ops st)) as Happ.
  { induction ops as [|op ops IH]; intros ops' st; [done|]. cbn [app run_ops]. apply IH. }
  subst s'. cbn [run_ops]. rewrite Happ. cbn [run_ops].
  set (s1 := exec sizeof types_py dc (OpEnterCall frame_name) s).
  destruct (run_balanced sizeof types_py dc body 0 s1 [Frame_init frame_name]
              (frames (stack (mem s))) Hbal) as [Hg [f' Hf']]; [done|done|].
  set (s2 := run_ops sizeof types_py dc body s1) in *.
  assert (exec sizeof types_py dc OpLeaveCall s2 =
          mkState (mkMemory (global_scope (mem s2)) (mkStack (frames (stack (mem s))))
                     (raw_memory (mem s2)) (next_free_address (mem s2))) (drawn s2)) as He.
  { cbn [exec]. unfold del_frame, Stack_del_frame. unfold_monad. by rewrite Hf'. }
  rewrite He. cbn [mem stack global_scope].
  assert (mkStack (frames (stack (mem s))) = stack (mem s)) as Hst
    by (by destruct (stack (mem s))).
  change (global_scope (mem s1)) with (global_scope (mem s)) in Hg.
  rewrite Hst, Hg. split; [done|]. split; [done|].
  intros key. rewrite (get_address_scopes (mem s) _ _ _ (drawn s)). by destruct s.
Qed.

(** ** Blocks *)

Lemma above_same k c c' base :
  parent_scope c' = parent_scope c -> scope_name c' = scope_name c ->
  above k c base -> above k c' base.
Proof. intros Hp Hn. destruct k; cbn [above]; rewrite Hp, Hn; done. Qed.

Lemma above_name_ok k cur base : above k cur base -> name_ok (scope_name cur).
Proof. destruct k; by intros [? _]. Qed.

(** Reads and writes, by name or by address, leave every scope alone. *)
Lemma exec_access_scopes sizeof types_py dc op s :
  is_call_op op = false -> is_block_op op = false -> is_declare op = false ->
  stack (mem (exec sizeof types_py dc op s)) = stack (mem s) /\
  global_scope (mem (exec sizeof types_py dc op s)) = global_scope (mem s).
Proof.
  intros H1 H2 H3. destruct op; try done; cbn [exec].
  - unfold Memory_getitem. destruct (get_address_cases var_name s) as [[b Hb]|[e He]].
    + rewrite (bind_Return _ _ _ _ _ Hb).
      destruct (raw_memory (mem s) !! b) as [w|] eqn:E.
      * by rewrite (get_at_address_stored _ _ _ _ E).
      * by rewrite (get_at_address_fresh _ _ _ E).
    + by rewrite (bind_Raise _ _ _ _ _ He).
  - unfold Memory_setitem. destruct (get_address_cases var_name s) as [[b Hb]|[e He]].
    + by rewrite (bind_Return _ _ _ _ _ Hb), set_at_address_run.
    + by rewrite (bind_Raise _ _ _ _ _ He).
  - destruct (raw_memory (mem s) !! address) as [w|] eqn:E.
    + by rewrite (get_at_address_stored _ _ _ _ E).
    + by rewrite (get_at_address_fresh _ _ _ E).
Qed.

(** What the operations that are no call do to the current frame, when it
    is [d] blocks inside [base]. *)
Lemma enter_block_head sizeof types_py dc s f tl d base :
  frames (stack (mem s)) = f :: tl -> frame_at d base f ->
  global_scope (mem (exec sizeof types_py dc OpEnterBlock s)) = global_scope (mem s) /\
  exists f', frames (stack (mem (exec sizeof types_py dc OpEnterBlock s))) = f' :: tl /\
             frame_at (S d) base f' /\ frame_name f' = frame_name f.
Proof.
  intros Hf (cur & Hcur & Hab). cbn [exec]. unfold new_scope.
  destruct (on_curr_frame_cases Frame_new_scope s)
    as [[e He]|(f0 & f' & tl0 & Hf0 & Hm & ->)].
  - exfalso. revert He. unfold on_curr_frame, curr_frame, Frame_new_scope. unfold_monad.
    rewrite Hf. cbn [head]. rewrite Hcur.
    by destruct (name_ok_next _ (above_name_ok _ _ _ Hab)) as [name' ->].
  - rewrite Hf in Hf0. injection Hf0 as <- <-. cbn [snd mem global_scope stack frames].
    split; [done|]. exists f'. split; [done|].
    revert Hm. unfold Frame_new_scope. rewrite Hcur.
    destruct (next_scope_name (scope_name cur)) as [name'|] eqn:En; [|done].
    intros [= <-]. split; [|done]. eexists. split; [reflexivity|].
    cbn [above scope_name parent_scope]. split; [by apply next_scope_name_ok in En|].
    by exists cur.
Qed.

Lemma leave_block_head sizeof types_py dc s f tl d base :
  frames (stack (mem s)) = f :: tl -> frame_at (S d) base f ->
  global_scope (mem (exec sizeof types_py dc OpLeaveBlock s)) = global_scope (mem s) /\
  exists f', frames (stack (mem (exec sizeof types_py dc OpLeaveBlock s))) = f' :: tl /\
             frame_at d base f' /\ frame_name f' = frame_name f.
Proof.
  intros Hf (cur & Hcur & Hn & p & Hp & Hab). cbn [exec]. unfold del_scope.
  destruct (on_curr_frame_cases Frame_del_scope s)
    as [[e He]|(f0 & f' & tl0 & Hf0 & Hm & ->)].
  - exfalso. revert He. unfold on_curr_frame, curr_frame, Frame_del_scope. unfold_monad.
    rewrite Hf. cbn [head]. by rewrite Hcur.
  - rewrite Hf in Hf0. injection Hf0 as <- <-. cbn [snd mem global_scope stack frames].
    split; [done|]. exists f'. split; [done|].
    revert Hm. unfold Frame_del_scope. rewrite Hcur, Hp. intros [= <-].
    split; [|done]. by exists p.
Qed.

Lemma plain_op_head sizeof types_py dc op s f tl d base :
  is_call_op op = false -> is_block_op op = false ->
  frames (stack (mem s)) = f :: tl -> frame_at d base f ->
  global_scope (mem (exec sizeof types_py dc op s)) = global_scope (mem s) /\
  exists f', frames (stack (mem (exec sizeof types_py dc op s))) = f' :: tl /\
             frame_at d base f' /\ frame_name f' = frame_name f.
Proof.
  intros Hc Hb Hf Hat. destruct (is_declare op) eqn:Hd.
  - destruct op; try done. cbn [exec].
    destruct (declare_state sizeof types_py dc var_type var_name s)
      as (g' & st' & raw' & d' & -> & _ &
          [[-> ->]|(sc & sc' & Hact & -> & -> & Hp & Hn)]);
      cbn [mem global_scope stack].
    + split; [done|]. by exists f.
    + destruct (assign_current (mem s) f tl sc' Hf) as [-> ->].
      split; [done|]. eexists. split; [reflexivity|]. split; [|done].
      destruct Hat as (cur & Hcur & Hab).
      assert (sc = cur) as ->.
      { revert Hact. unfold active_scope, active_ref, Stack_is_empty, deref, curr_frame.
        rewrite Hf. cbn [head]. rewrite Hcur. by intros [= ->]. }
      exists sc'. split; [done|]. by apply (above_same _ cur).
  - destruct (exec_access_scopes sizeof types_py dc op s Hc Hb Hd) as [-> ->].
    split; [done|]. by exists f.
Qed.

(** Properly nested operations, run in a frame that is [k] blocks inside
    [base] with the calls [inner] entered above it, end in that frame, no
    block inside [base]. *)
Lemma run_nested sizeof types_py dc ops inner k s fs F rest base :
  well_nested inner k ops = true ->
  frames (stack (mem s)) = (fs ++ F :: rest)%list ->
  Forall2 (fun d f => frame_at d None f) inner fs ->
  frame_at k base F ->
  global_scope (mem (run_ops sizeof types_py dc ops s)) = global_scope (mem s) /\
  exists F', frames (stack (mem (run_ops sizeof types_py dc ops s))) = F' :: rest /\
             frame_at 0 base F' /\ frame_name F' = frame_name F.
Proof.
  revert inner k s fs F.
  induction ops as [|op ops IH]; intros inner k s fs F Hwn Hf Hin HF.
  { cbn [well_nested] in Hwn. destruct inner; [|done]. destruct k; [|done].
    apply Forall2_nil_inv_l in Hin as ->. cbn [run_ops]. split; [done|]. by exists F. }
  cbn [run_ops].
  assert (forall s1 inner1 k1 fs1 F1,
            well_nested inner1 k1 ops = true ->
            global_scope (mem s1) = global_scope (mem s) ->
            frames (stack (mem s1)) = (fs1 ++ F1 :: rest)%list ->
            Forall2 (fun d f => frame_at d None f) inner1 fs1 ->
            frame_at k1 base F1 -> frame_name F1 = frame_name F ->
            global_scope (mem (run_ops sizeof types_py dc ops s1)) = global_scope (mem s) /\
            exists F', frames (stack (mem (run_ops sizeof types_py dc ops s1))) = F' :: rest /\
                       frame_at 0 base F' /\ frame_name F' = frame_name F) as Hnext.
  { intros s1 inner1 k1 fs1 F1 Hwn1 Hg1 Hf1 Hin1 HF1 Hn1.
    destruct (IH inner1 k1 s1 fs1 F1 Hwn1 Hf1 Hin1 HF1) as [Hg (F' & HF' & Hat & Hn)].
    split; [by rewrite Hg|]. exists F'. by rewrite Hn. }
  (* the current frame is the innermost call entered, or the frame itself *)
  destruct inner as [|d inner]; [apply Forall2_nil_inv_l in Hin as ->
                               |apply Forall2_cons_inv_l in Hin as (f & fs' & Hd & Hin & ->)];
    cbn [app] in Hf.
  - (* no call entered: the frame itself *)
    destruct (is_call_op op) eqn:Hc; [|destruct (is_block_op op) eqn:Hb].
    + destruct op as [? ?|?|? ?|?|? ?|fname| | |]; try done. cbn [well_nested] in Hwn.
      apply (Hnext _ [0%nat] k [Frame_init fname] F Hwn); try done.
      * cbn [exec]. rewrite new_frame_run. cbn [snd mem stack frames]. by rewrite Hf.
      * constructor; [|constructor]. eexists. split; [reflexivity|].
        split; [apply Frame_init_name_ok|done].
    + destruct op; try done; cbn [well_nested] in Hwn.
      * destruct (enter_block_head sizeof types_py dc s F rest k base Hf HF)
          as [Hg (F' & HF' & Hat & Hn)].
        by apply (Hnext _ [] (S k) [] F' Hwn).
      * destruct k as [|k]; [done|].
        destruct (leave_block_head sizeof types_py dc s F rest k base Hf HF)
          as [Hg (F' & HF' & Hat & Hn)].
        by apply (Hnext _ [] k [] F' Hwn).
    + destruct (plain_op_head sizeof types_py dc op s F rest k base Hc Hb Hf HF)
        as [Hg (F' & HF' & Hat & Hn)].
      apply (Hnext _ [] k [] F'); try done. by destruct op.
  - (* inside a call entered by the run *)
    destruct (is_call_op op) eqn:Hc; [|destruct (is_block_op op) eqn:Hb].
    + destruct op as [? ?|?|? ?|?|? ?|fname| | |]; try done; cbn [well_nested] in Hwn.
      * apply (Hnext _ (0%nat :: d :: inner) k (Frame_init fname :: f :: fs') F Hwn);
          try done.
        -- cbn [exec]. rewrite new_frame_run. cbn [snd mem stack frames]. by rewrite Hf.
        -- constructor; [|by constructor]. eexists. split; [reflexivity|].
           split; [apply Frame_init_name_ok|done].
      * apply (Hnext _ inner k fs' F Hwn); try done.
        -- cbn [exec]. unfold del_frame, Stack_del_frame. unfold_monad. by rewrite Hf.
        -- cbn [exec]. unfold del_frame, Stack_del_frame. unfold_monad. by rewrite Hf.
    + destruct op; try done; cbn [well_nested] in Hwn.
      * destruct (enter_block_head sizeof types_py dc s f (fs' ++ F :: rest)%list d None Hf Hd)
          as [Hg (f' & Hf' & Hat & Hn)].
        apply (Hnext _ (S d :: inner) k (f' :: fs') F Hwn); try done. by constructor.
      * destruct d as [|d]; [done|].
        destruct (leave_block_head sizeof types_py dc s f (fs' ++ F :: rest)%list d None Hf Hd)
          as [Hg (f' & Hf' & Hat & Hn)].
        apply (Hnext _ (d :: inner) k (f' :: fs') F Hwn); try done. by constructor.
    + destruct (plain_op_head sizeof types_py dc op s f (fs' ++ F :: rest)%list d None Hc Hb Hf Hd)
        as [Hg (f' & Hf' & Hat & Hn)].
      apply (Hnext _ (d :: inner) k (f' :: fs') F); try done.
      * by destruct op.
      * by constructor.
Qed.

(** X14. A block gives back the scopes it found.  In a memory with
    consistent scopes and a current scope, enter a block, run any
    operations in which blocks and calls are properly nested, and leave
    the block: the call stack, with every scope of every frame, and the
    global scope are exactly as before, so every name resolves as it did
    before the block and the names declared in it are gone. *)
Theorem block_restores_scopes sizeof types_py dc body s :
  scopes_consistent (mem s) ->
  (exists f sc, curr_frame (stack (mem s)) = Some f /\ curr_scope f = Some sc) ->
  well_nested [] 0 body = true ->
  let s' := run_ops sizeof types_py dc (OpEnterBlock :: body ++ [OpLeaveBlock])%list s in
  stack (mem s') = stack (mem s) /\
  global_scope (mem s') = global_scope (mem s) /\
  forall key, fst (get_address key s') = fst (get_address key s).
Proof.
  intros Hcons (f & sc & Hf & Hsc) Hwn s'.
  assert (forall ops ops' st, run_ops sizeof types_py dc (ops ++ ops')%list st
            = run_ops sizeof types_py dc ops' (run_ops sizeof types_py dc ops st)) as Happ.
  { induction ops as [|op ops IH]; intros ops' st; [done|]. cbn [app run_ops]. apply IH. }
  unfold curr_frame in Hf.
  destruct (frames (stack (mem s))) as [|f0 rest] eqn:Hfr; [done|]. injection Hf as ->.
  assert (name_ok (scope_name sc)) as Hname.
  { destruct Hcons as [_ _ H3 _]. rewrite Hfr in H3.
    apply Forall_cons in H3 as [H3 _]. unfold frame_ok, Frame_get_scopes in H3.
    rewrite Hsc in H3. destruct sc as [nm p tbl]. cbn [Scope_chain] in H3.
    by apply Forall_cons in H3 as [[? _] _]. }
  (* entering the block puts a new scope over sc *)
  destruct (name_ok_next _ Hname) as [name' Hname'].
  set (f1 := mkFrame (frame_name f) (Some (mkScope name' (Some sc) ∅))).
  assert (exec sizeof types_py dc OpEnterBlock s =
          mkState (mkMemory (global_scope (mem s)) (mkStack (f1 :: rest))
                     (raw_memory (mem s)) (next_free_address (mem s))) (drawn s)) as He1.
  { cbn [exec]. unfold new_scope, on_curr_frame, Frame_new_scope, curr_frame, set_curr_frame.
    unfold_monad. rewrite Hfr. cbn [head]. by rewrite Hsc, Hname'. }
  subst s'. cbn [run_ops]. rewrite Happ. cbn [run_ops].
  set (s1 := exec sizeof types_py dc OpEnterBlock s) in *.
  assert (frames (stack (mem s1)) = f1 :: rest) as Hf1 by (by rewrite He1).
  assert (global_scope (mem s1) = global_scope (mem s)) as Hg1 by (by rewrite He1).
  assert (frame_name f1 = frame_name f) as Hn1 by done.
  assert (frame_at 0 (Some sc) f1) as Hin.
  { eexists. split; [reflexivity|]. split; [|done]. by apply next_scope_name_ok in Hname'. }
  destruct (run_nested sizeof types_py dc body [] 0 s1 [] f1 rest (Some sc) Hwn Hf1
              ltac:(constructor) Hin) as [Hg2 (f2 & Hf2 & Hat2 & Hn2)].
  set (s2 := run_ops sizeof types_py dc body s1) in *.
  destruct Hat2 as (cur & Hcur & _ & Hp). cbn in Hp.
  assert (exec sizeof types_py dc OpLeaveBlock s2 =
          mkState (mkMemory (global_scope (mem s2)) (mkStack (mkFrame (frame_name f2) (Some sc) :: rest))
                     (raw_memory (mem s2)) (next_free_address (mem s2))) (drawn s2)) as He.
  { cbn [exec]. unfold del_scope, on_curr_frame, Frame_del_scope, curr_frame, set_curr_frame.
    unfold_monad. rewrite Hf2. cbn [head]. by rewrite Hcur, Hp. }
  rewrite He. cbn [mem stack global_scope].
  assert (mkStack (mkFrame (frame_name f2) (Some sc) :: rest) = stack (mem s)) as Hst.
  { rewrite Hn2, Hn1. destruct (stack (mem s)) as [frs]. cbn [frames] in Hfr. subst frs.
    destruct f as [fn cs]. cbn [curr_scope frame_name] in *. by subst cs. }
  rewrite Hst, Hg2, Hg1. split; [done|]. split; [done|].
  intros key. rewrite (get_address_scopes (mem s) _ _ _ (drawn s)). by destruct s.
Qed.

(** ** The names of nested scopes *)

Lemma app_assoc_str (p q r : string) : (p ++ (q ++ r) = (p ++ q) ++ r)%string.
Proof.
  induction p as [|c p IH]; [done|].
  change (String c (p ++ (q ++ r)) = String c ((p ++ q) ++ r))%string. by rewrite IH.
Qed.

Lemma str_drop_last2_app p q :
  (2 <= String.length q)%nat -> str_drop_last2 (p ++ q) = (p ++ str_drop_last2 q)%string.
Proof.
  intros Hq. unfold str_drop_last2. induction p as [|c p IH]; [done|].
  change (String c p ++ q)%string with (String c (p ++ q)).
  cbn [String.length]. pose proof (length_app_str p q) as Hl.
  replace (S (String.length (p ++ q)) - 2)%nat
    with (S (String.length (p ++ q) - 2))%nat by lia.
  cbn [substring append]. by rewrite IH.
Qed.

(** The name of the next scope is made from the last characters only. *)
Lemma next_scope_name_app p q :
  (2 <= String.length q)%nat ->
  next_scope_name (p ++ q) =
    match next_scope_name q with
    | Some q' => Some (p ++ q')%string
    | None => None
    end.
Proof.
  intros Hq. unfold next_scope_name.
  rewrite str_last2_app, str_drop_last2_app by done.
  destruct (py_int (str_last2 q)); [|done]. cbv beta iota. by rewrite app_assoc_str.
Qed.

(** Counting up in the last characters: from [k] to [k + 1] up to 199. *)
Lemma next_scope_name_counts k :
  (k < 199)%nat ->
  (2 <= String.length (fmt_02d (Z.of_nat k)))%nat /\
  next_scope_name (fmt_02d (Z.of_nat k)) = Some (fmt_02d (Z.of_nat (S k))).
Proof.
  intros Hk.
  assert (forallb (fun k =>
            (2 <=? String.length (fmt_02d (Z.of_nat k)))%nat &&
            match next_scope_name (fmt_02d (Z.of_nat k)) with
            | Some q => String.eqb q (fmt_02d (Z.of_nat (S k)))
            | None => false
            end) (seq 0 199) = true) as Hall by (vm_compute; reflexivity).
  rewrite forallb_forall in Hall. specialize (Hall k).
  rewrite andb_true_iff, Nat.leb_le in Hall.
  destruct Hall as [Hl Hn]; [apply in_seq; lia|]. split; [done|].
  destruct (next_scope_name (fmt_02d (Z.of_nat k))) as [q|]; [|done].
  apply String.eqb_eq in Hn. by rewrite Hn.
Qed.

Lemma Frame_nest_names fname k :
  (k <= 199)%nat ->
  exists tbl p,
    Frame_nest k (Frame_init fname) =
      Return (mkFrame fname
                (Some (mkScope ((fname ++ ".scope_") ++ fmt_02d (Z.of_nat k)) p tbl))) /\
    length (Scope_chain (mkScope ((fname ++ ".scope_") ++ fmt_02d (Z.of_nat k)) p tbl)) = S k.
Proof.
  induction k as [|k IH]; intros Hk.
  - exists ∅, None. cbn [Frame_nest]. unfold Frame_init. split; [|done].
    by rewrite <- app_assoc_str.
  - destruct IH as (tbl & p & Hr & Hlen); [lia|].
    cbn [Frame_nest]. rewrite Hr. unfold Frame_new_scope. cbn [curr_scope scope_name frame_name].
    destruct (next_scope_name_counts k) as [Hl Hn]; [lia|].
    rewrite next_scope_name_app, Hn by done.
    eexists ∅, _. split; [reflexivity|].
    cbn [Scope_chain parent_scope length] in Hlen |- *. lia.
Qed.

(** X15. The name of a scope records how deep it is nested, up to a
    depth of 199: after [k] calls of [new_scope] in a new frame, none of
    which raises, the current scope is named after the frame with
    [.scope_] and [k] written with at least two digits, and the chain has
    [k + 1] scopes.  The next one breaks the count: at depth 200 the name
    ends in [1100], since only the last two characters are read back. *)
Theorem scope_name_records_depth fname k :
  (k <= 199)%nat ->
  (exists f sc,
     Frame_nest k (Frame_init fname) = Return f /\
     frame_name f = fname /\
     curr_scope f = Some sc /\
     scope_name sc = ((fname ++ ".scope_") ++ fmt_02d (Z.of_nat k))%string /\
     length (Frame_get_scopes f) = S k) /\
  (exists f sc,
     Frame_nest 200 (Frame_init fname) = Return f /\
     curr_scope f = Some sc /\
     scope_name sc = ((fname ++ ".scope_") ++ "1100")%string).
Proof.
  intros Hk. split.
  - destruct (Frame_nest_names fname k Hk) as (tbl & p & Hr & Hlen).
    eexists _, _. split; [exact Hr|]. by repeat split.
  - destruct (Frame_nest_names fname 199) as (tbl & p & Hr & _); [lia|].
    change (Frame_nest 200 (Frame_init fname))
      with (match Frame_nest 199 (Frame_init fname) with
            | Return f' => Frame_new_scope f'
            | Raise e => Raise e
            end).
    rewrite Hr.
    unfold Frame_new_scope. cbn [curr_scope scope_name frame_name].
    rewrite next_scope_name_app by (vm_compute; lia).
    assert (next_scope_name (fmt_02d (Z.of_nat 199)) = Some "1100") as -> by (vm_compute; reflexivity).
    eexists _, _. by repeat split.
Qed.

(** ** Bound addresses *)


(** * The further properties at concrete memories *)

Lemma declare_empty_type_name_witness :
  active_scope (mem initial_state) = Some (global_scope Memory_init) /\
  raw_memory (mem initial_state) !! next_free_address (mem initial_state) = None /\
  exists s',
    declare sizeof_example types_py_example content_example "" "x" initial_state
      = (Raise IndexError, s') /\
    next_free_address (mem s') = 1000004 /\
    get_address "x" s' = (Return 1000000, s') /\
    fst (Memory_getitem content_example "x" s') = Return (Number "int" 0).
Proof.
  split; [reflexivity|]. split; [reflexivity|].
  destruct (declare_empty_type_name sizeof_example types_py_example content_example
              "x" initial_state (global_scope Memory_init) eq_refl eq_refl)
    as (s' & H1 & H2 & _ & _ & H3 & H4).
  exists s'. repeat split; assumption.
Defined.

Lemma declare_without_scope_witness :
  curr_frame (stack (mem state_lost_scope)) = Some (mkFrame "f" None) /\
  exists s',
    declare sizeof_example types_py_example content_example "int" "x" state_lost_scope
      = (Raise TypeError, s') /\
    next_free_address (mem s') = 1000004 /\
    stack (mem s') = stack (mem state_lost_scope) /\
    raw_memory (mem s') = raw_memory (mem state_lost_scope).
Proof.
  split; [reflexivity|].
  destruct (declare_without_scope sizeof_example types_py_example content_example
              "int" "x" state_lost_scope (mkFrame "f" None) eq_refl eq_refl)
    as (s' & H1 & H2 & _ & H3 & H4 & _).
  exists s'. repeat split; assumption.
Defined.

Lemma redeclare_rebinds_witness :
  "int" <> "" /\ "char" <> "" /\ sizeof_example "int" <> 0 /\
  exists s2,
    (declare sizeof_example types_py_example content_example "int" "x" ;;
     declare sizeof_example types_py_example content_example "char" "x") initial_state
      = (Return tt, s2) /\
    get_address "x" s2 = (Return 1000004, s2) /\
    is_Some (raw_memory (mem s2) !! 1000000).
Proof.
  assert ("int" <> "") as H1 by discriminate.
  assert ("char" <> "") as H2 by discriminate.
  assert (sizeof_example "int" <> 0) as H3 by discriminate.
  split; [exact H1|]. split; [exact H2|]. split; [exact H3|].
  destruct (redeclare_rebinds sizeof_example types_py_example content_example
              "int" "char" "x" initial_state (global_scope Memory_init) H1 H2 H3 eq_refl)
    as (s2 & n1 & n2 & Hr & Hg & Ha1 & _).
  exists s2. split; [exact Hr|]. split; [exact Hg|]. eexists. exact Ha1.
Defined.

Lemma declare_then_read_witness :
  "struct point" <> "" /\
  active_scope (mem initial_state) = Some (global_scope Memory_init) /\
  (declare sizeof_example types_py_example content_example "struct point" "p" ;;
   Memory_getitem content_example "p") initial_state =
    (Return (initial_value types_py_example "struct point" (content_example 0)),
     snd (declare sizeof_example types_py_example content_example "struct point" "p"
            initial_state)).
Proof.
  assert ("struct point" <> "") as H1 by discriminate.
  split; [exact H1|]. split; [reflexivity|].
  exact (declare_then_read sizeof_example types_py_example content_example
           "struct point" "p" initial_state (global_scope Memory_init) H1 eq_refl).
Defined.

Lemma raising_leaves_state_witness :
  is_declare OpLeaveCall = false /\
  perform sizeof_example types_py_example content_example OpLeaveCall initial_state
    = (Raise IndexError, initial_state) /\
  snd (perform sizeof_example types_py_example content_example OpLeaveCall initial_state)
    = initial_state.
Proof.
  split; [reflexivity|]. split; [reflexivity|].
  exact (proj1 (raising_leaves_state sizeof_example types_py_example content_example
                  OpLeaveCall initial_state) eq_refl IndexError _ eq_refl).
Defined.

Lemma storage_never_shrinks_witness :
  is_Some (raw_memory (mem state_in_main) !! 1000000) /\
  is_Some (raw_memory
             (mem (run_ops sizeof_example types_py_example content_example
                     [OpEnterBlock; OpDeclare "int" "y"; OpLeaveBlock; OpLeaveCall]
                     state_in_main)) !! 1000000).
Proof.
  assert (is_Some (raw_memory (mem state_in_main) !! 1000000)) as H.
  { eexists. vm_compute. reflexivity. }
  split; [exact H|].
  exact (proj1 (storage_never_shrinks sizeof_example types_py_example content_example
                  [OpEnterBlock; OpDeclare "int" "y"; OpLeaveBlock; OpLeaveCall]
                  state_in_main 1000000 H)).
Defined.

Lemma name_access_is_address_access_witness :
  resolvable (mem state_in_main) "x" /\
  exists a,
    get_address "x" state_in_main = (Return a, state_in_main) /\
    (set_at_address a PyNone ;; Memory_getitem content_example "x") state_in_main =
      (Return PyNone, snd (set_at_address a PyNone state_in_main)).
Proof.
  split; [exact state_in_main_resolves_x|].
  destruct (name_access_is_address_access content_example "x" PyNone state_in_main
              state_in_main_resolves_x) as (a & H1 & _ & _ & H2 & _).
  exists a. split; assumption.
Defined.

Lemma call_restores_scopes_witness :
  calls_balanced 0 [OpDeclare "int" "y"; OpEnterCall "g"; OpEnterBlock; OpLeaveCall] = true /\
  stack (mem (run_ops sizeof_example types_py_example content_example
                (OpEnterCall "f"
                 :: [OpDeclare "int" "y"; OpEnterCall "g"; OpEnterBlock; OpLeaveCall]
                 ++ [OpLeaveCall])%list state_in_main))
    = stack (mem state_in_main).
Proof.
  split; [reflexivity|].
  exact (proj1 (call_restores_scopes sizeof_example types_py_example content_example "f"
                  [OpDeclare "int" "y"; OpEnterCall "g"; OpEnterBlock; OpLeaveCall]
                  state_in_main eq_refl)).
Defined.

Lemma block_restores_scopes_witness :
  scopes_consistent (mem state_in_main) /\
  well_nested [] 0
    [OpDeclare "int" "y"; OpEnterBlock; OpEnterCall "g"; OpEnterBlock; OpLeaveCall;
     OpLeaveBlock] = true /\
  stack (mem (run_ops sizeof_example types_py_example content_example
                (OpEnterBlock
                 :: [OpDeclare "int" "y"; OpEnterBlock; OpEnterCall "g"; OpEnterBlock;
                     OpLeaveCall; OpLeaveBlock]
                 ++ [OpLeaveBlock])%list state_in_main))
    = stack (mem state_in_main).
Proof.
  split; [exact state_in_main_consistent|]. split; [reflexivity|].
  refine (proj1 (block_restores_scopes sizeof_example types_py_example content_example
                   [OpDeclare "int" "y"; OpEnterBlock; OpEnterCall "g"; OpEnterBlock;
                    OpLeaveCall; OpLeaveBlock]
                   state_in_main state_in_main_consistent _ eq_refl)).
  eexists; eexists. cbn. done.
Defined.

Lemma scope_name_records_depth_witness :
  (3 <= 199)%nat /\
  exists f sc,
    Frame_nest 3 (Frame_init "main") = Return f /\
    curr_scope f = Some sc /\
    scope_name sc = "main.scope_03" /\
    length (Frame_get_scopes f) = 4%nat.
Proof.
  assert (3 <= 199)%nat as H by lia.
  split; [exact H|].
  destruct (proj1 (scope_name_records_depth "main" 3 H)) as (f & sc & H1 & _ & H2 & H3 & H4).
  exists f, sc. repeat split; assumption.
Defined.


(** Runs of the further properties. *)
Example malloc_all_example :
  fst (malloc_all [4; 1; 0; 8] initial_state) = Return [1000000; 1000004; 1000005; 1000005].
Proof. vm_compute. reflexivity. Qed.

Example local_hides_global_example :
  fst ((declare sizeof_example types_py_example content_example "int" "x" ;;
        new_frame "f" ;;
        declare sizeof_example types_py_example content_example "char" "x" ;;
        inside ← get_address "x" ;
        del_frame ;;
        outside ← get_address "x" ;
        mret (inside, outside)) initial_state)
  = Return (1000004, 1000000).
Proof. vm_compute. reflexivity. Qed.
